(** * Stress-period selection and reserve-margin update of ReEDS_Augur/stress_periods.py

    Shallow embedding of the parts of [update_prm], [get_stress_periods] and
    [main] that decide the shortfall curve, the daily NEUE metric and the
    criterion loop.  Quantities in MWh and ppm are modelled as rationals [Q]
    (the source uses floating point; rounding is not modelled). *)

From Stdlib Require Import String Ascii.
From Stdlib Require Import List Bool Arith Lia ZArith QArith Qminmax Lqa.
From Stdlib Require Import Sorting.Sorted Sorting.Permutation Qround.
Import ListNotations.

(** ** Generic table helpers *)

Module Table.

(** [map_ctx f pre l]: a row-wise map where each row also sees the rows before
    it (nearest first, as [pre]) and the rows after it.  pandas' [groupby().shift]
    and [groupby().cumsum()] are row-wise maps of this shape. *)
Fixpoint map_ctx {A B} (f : list A -> A -> list A -> B) (pre : list A) (l : list A)
  : list B :=
  match l with
  | [] => []
  | x :: t => f pre x t :: map_ctx f (x :: pre) t
  end.

(** Stable insertion sort for a strict order [ltb]: a row is inserted after all
    rows it is not strictly smaller than, so ties keep their input order (the
    stable ordering of [DataFrame.sort_values] on several columns). *)
Fixpoint insert_by {A} (ltb : A -> A -> bool) (x : A) (l : list A) : list A :=
  match l with
  | [] => [x]
  | y :: t => if ltb x y then x :: y :: t else y :: insert_by ltb x t
  end.

Definition sort_by {A} (ltb : A -> A -> bool) (l : list A) : list A :=
  fold_left (fun acc x => insert_by ltb x acc) l [].

Definition Qsum (l : list Q) : Q := fold_right Qplus 0 l.

(** [Series.max()]: [None] stands for the NaN of an empty series. *)
Definition Qmax_list (l : list Q) : option Q :=
  match l with
  | [] => None
  | d :: ds => Some (fold_left Qmax ds d)
  end.

Definition Qltb (a b : Q) : bool := negb (Qle_bool b a).

Definition Q_of_nat (n : nat) : Q := inject_Z (Z.of_nat n).

End Table.

(** ** [update_prm], sample-informed mode: the piecewise-linear shortfall curve *)

Module UpdatePrm.
Import Table.

(** One row of [net_short] after [melt]: sample, hour, zone r, net shortfall. *)
Record short_row := mk_short { s_sample : nat; s_hour : nat; s_r : nat; s_mwh : Q }.

(** [net_short['net_short_mwh'].clip(lower=0)] *)
Definition clip_row (x : short_row) : short_row :=
  mk_short (s_sample x) (s_hour x) (s_r x) (Qmax 0 (s_mwh x)).

(** [groupby(['r','sample'], as_index=False).sum()]: one entry per key, keys in
    sorted order. *)
Definition key_ltb (a b : nat * nat) : bool :=
  (fst a <? fst b) || ((fst a =? fst b) && (snd a <? snd b)).

Fixpoint add_to_group (k : nat * nat) (v : Q) (g : list ((nat * nat) * Q))
  : list ((nat * nat) * Q) :=
  match g with
  | [] => [(k, v)]
  | (k', v') :: g' =>
      if (fst k =? fst k') && (snd k =? snd k') then (k', v' + v) :: g'
      else if key_ltb k k' then (k, v) :: g
      else (k', v') :: add_to_group k v g'
  end.

Definition groupby_r_sample_sum (rows : list short_row) : list ((nat * nat) * Q) :=
  fold_left (fun acc x => add_to_group (s_r x, s_sample x) (s_mwh x) acc) rows [].

(** A row of [plfs], with every column the function assigns. *)
Record plf_row := mk_plf {
  p_r : nat; p_sample : nat; p_nsm : Q;
  p_intercept : Q; p_slope : Q;
  p_x1 : Q; p_x2 : Q; p_Dy : Q; p_y1 : Q; p_y2 : Q }.

Definition set_intercept (p : plf_row) (v : Q) : plf_row :=
  mk_plf (p_r p) (p_sample p) (p_nsm p) v (p_slope p) (p_x1 p) (p_x2 p) (p_Dy p) (p_y1 p) (p_y2 p).
Definition set_slope (p : plf_row) (v : Q) : plf_row :=
  mk_plf (p_r p) (p_sample p) (p_nsm p) (p_intercept p) v (p_x1 p) (p_x2 p) (p_Dy p) (p_y1 p) (p_y2 p).
Definition set_x1 (p : plf_row) (v : Q) : plf_row :=
  mk_plf (p_r p) (p_sample p) (p_nsm p) (p_intercept p) (p_slope p) v (p_x2 p) (p_Dy p) (p_y1 p) (p_y2 p).
Definition set_x2 (p : plf_row) (v : Q) : plf_row :=
  mk_plf (p_r p) (p_sample p) (p_nsm p) (p_intercept p) (p_slope p) (p_x1 p) v (p_Dy p) (p_y1 p) (p_y2 p).
Definition set_Dy (p : plf_row) (v : Q) : plf_row :=
  mk_plf (p_r p) (p_sample p) (p_nsm p) (p_intercept p) (p_slope p) (p_x1 p) (p_x2 p) v (p_y1 p) (p_y2 p).
Definition set_y1 (p : plf_row) (v : Q) : plf_row :=
  mk_plf (p_r p) (p_sample p) (p_nsm p) (p_intercept p) (p_slope p) (p_x1 p) (p_x2 p) (p_Dy p) v (p_y2 p).
Definition set_y2 (p : plf_row) (v : Q) : plf_row :=
  mk_plf (p_r p) (p_sample p) (p_nsm p) (p_intercept p) (p_slope p) (p_x1 p) (p_x2 p) (p_Dy p) (p_y1 p) v.

Definition same_r (p q : plf_row) : bool := p_r p =? p_r q.

(** [plfs = net_short_crit.loc[net_short_crit.net_short_mwh > 0].copy()] *)
Definition plfs_init (crit : list ((nat * nat) * Q)) : list plf_row :=
  map (fun e => mk_plf (fst (fst e)) (snd (fst e)) (snd e) 0 0 0 0 0 0 0)
      (filter (fun e => Qltb 0 (snd e)) crit).

(** [plfs['intercept'] = plfs.groupby('r')['net_short_mwh'].transform('sum') / n_samples] *)
Definition step_intercept (n : nat) (l : list plf_row) : list plf_row :=
  map (fun p => set_intercept p (Qsum (map p_nsm (filter (same_r p) l)) / Q_of_nat n)) l.

(** Sort keys: [sort_values(['r','net_short_mwh'], ascending=False)] and
    [ascending=True]. *)
Definition desc_ltb (p q : plf_row) : bool :=
  (p_r q <? p_r p) || ((p_r p =? p_r q) && Qltb (p_nsm q) (p_nsm p)).
Definition asc_ltb (p q : plf_row) : bool :=
  (p_r p <? p_r q) || ((p_r p =? p_r q) && Qltb (p_nsm p) (p_nsm q)).

(** [plfs['slope'] = -1] *)
Definition step_slope_init (l : list plf_row) : list plf_row :=
  map (fun p => set_slope p (-1)) l.

(** [plfs['slope'] = plfs.groupby(['r'])['slope'].transform('cumsum') / n_samples] *)
Definition step_slope_cumsum (n : nat) (l : list plf_row) : list plf_row :=
  map_ctx (fun pre p _ =>
    set_slope p ((Qsum (map p_slope (filter (same_r p) pre)) + p_slope p) / Q_of_nat n))
    [] l.

(** [plfs['x1'] = plfs.groupby('r')['net_short_mwh'].shift(1, fill_value=0)] *)
Definition step_x1 (l : list plf_row) : list plf_row :=
  map_ctx (fun pre p _ =>
    set_x1 p (match find (same_r p) pre with Some q => p_nsm q | None => 0 end))
    [] l.

(** [plfs['x2'] = plfs['net_short_mwh']] *)
Definition step_x2 (l : list plf_row) : list plf_row :=
  map (fun p => set_x2 p (p_nsm p)) l.

(** [plfs['Dy'] = plfs['slope'] * (plfs['x2']-plfs['x1'])] *)
Definition step_Dy (l : list plf_row) : list plf_row :=
  map (fun p => set_Dy p (p_slope p * (p_x2 p - p_x1 p))) l.

(** [plfs['y1'] = plfs['intercept'] + plfs.groupby('r')['Dy'].transform(
       lambda x: x.cumsum().shift(1, fill_value=0))] *)
Definition step_y1 (l : list plf_row) : list plf_row :=
  map_ctx (fun pre p _ =>
    set_y1 p (p_intercept p + Qsum (map p_Dy (filter (same_r p) pre))))
    [] l.

(** [plfs['y2'] = plfs.groupby('r')['y1'].shift(-1, fill_value=0)] *)
Definition step_y2 (l : list plf_row) : list plf_row :=
  map_ctx (fun _ p post =>
    set_y2 p (match find (same_r p) post with Some q => p_y1 q | None => 0 end))
    [] l.

(** The curve table [plfs] up to the assertion, from the melted shortfall table
    and [n_samples]. *)
Definition plfs (rows : list short_row) (n_samples : nat) : list plf_row :=
  let net_short_crit := groupby_r_sample_sum (map clip_row rows) in
  let p := plfs_init net_short_crit in
  let p := step_intercept n_samples p in
  let p := sort_by desc_ltb p in
  let p := step_slope_init p in
  let p := step_slope_cumsum n_samples p in
  let p := sort_by asc_ltb p in
  let p := step_x1 p in
  let p := step_x2 p in
  let p := step_Dy p in
  let p := step_y1 p in
  step_y2 p.

(** [assert plfs['Dy'].max() <= 0]: the max of an empty column is NaN, and
    [NaN <= 0] is false. *)
Definition Dy_assert_ok (p : list plf_row) : bool :=
  match Qmax_list (map p_Dy p) with
  | None => false
  | Some m => Qle_bool m 0
  end.

End UpdatePrm.

(** ** [get_stress_periods]: the per-day stress metric table *)

Module StressMetric.
Import Table.

(** Calendar day [(year, month, day)] of an hourly timestamp. *)
Definition day := (nat * nat * nat)%type.

Definition day_eqb (a b : day) : bool :=
  let '(y1, m1, d1) := a in let '(y2, m2, d2) := b in
  (y1 =? y2) && (m1 =? m2) && (d1 =? d2).

(** A DataFrame: row labels, column labels and the cell at each pair of labels.
    pandas aligns arithmetic between frames by labels, which is the pointwise
    operation on [cell]. *)
Record frame (K : Type) := mk_frame {
  index : list K; columns : list string; cell : K -> string -> Q }.
Arguments mk_frame {K}. Arguments index {K}. Arguments columns {K}. Arguments cell {K}.

(** Labels in order of first appearance, without repeats. *)
Fixpoint uniq {A} (eqb : A -> A -> bool) (l : list A) : list A :=
  match l with
  | [] => []
  | x :: t => x :: filter (fun y => negb (eqb x y)) (uniq eqb t)
  end.

(** [.rename(columns=rmap).groupby(axis=1, level=0).sum()] *)
Definition rename_groupby_sum {K} (rmap : string -> string) (f : frame K) : frame K :=
  mk_frame (index f) (uniq String.eqb (map rmap (columns f)))
    (fun k R => Qsum (map (fun c => cell f k c)
                       (filter (fun c => String.eqb (rmap c) R) (columns f)))).

(** [.groupby([index.year, index.month, index.day]).agg(agg)]; hours are the
    positions of the time index [tindex]. *)
Definition groupby_day (tindex : list day) (agg : list Q -> Q) (f : frame nat) : frame day :=
  let day_of h := nth h tindex (0, 0, 0)%nat in
  mk_frame (uniq day_eqb (map day_of (index f))) (columns f)
    (fun d c => agg (map (fun h => cell f h c)
                       (filter (fun h => day_eqb (day_of h) d) (index f)))).

(** Label-aligned division and scaling. *)
Definition div_frame {K} (f g : frame K) : frame K :=
  mk_frame (index f) (columns f) (fun k c => cell f k c / cell g k c).
Definition scale_frame {K} (s : Q) (f : frame K) : frame K :=
  mk_frame (index f) (columns f) (fun k c => cell f k c * s).

(** [GroupBy.agg('sum')] and [GroupBy.agg('max')] on a non-empty group. *)
Definition agg_sum (l : list Q) : Q := Qsum l.
Definition agg_max (l : list Q) : Q :=
  match l with [] => 0 | x :: t => fold_left Qmax t x end.

Definition agg_of (m : string) : option (list Q -> Q) :=
  if String.eqb m "sum"%string then Some agg_sum
  else if String.eqb m "max"%string then Some agg_max
  else None.

(** [str.upper()] on ASCII. *)
Definition ascii_upper (c : Ascii.ascii) : Ascii.ascii :=
  let n := Ascii.nat_of_ascii c in
  if (97 <=? n) && (n <=? 122) then Ascii.ascii_of_nat (n - 32) else c.
Fixpoint upper (s : string) : string :=
  match s with
  | EmptyString => EmptyString
  | String c t => String (ascii_upper c) (upper t)
  end.

Definition ppm : Q := 1000000.

(** [dfmetric_period] of [get_stress_periods], from the zonal EUE table [dfeue]
    and the zonal load table [dfload] (whose index is set to [dfeue.index]),
    both indexed by hour position; [None] where the source leaves
    [dfmetric_period] unbound or [agg] rejects the method. *)
Definition metric_period (tindex : list day) (rmap : string -> string)
    (stress_metric period_agg_method : string) (dfeue0 dfload0 : frame nat)
    : option (frame day) :=
  let dfeue := rename_groupby_sum rmap dfeue0 in
  if String.eqb (upper stress_metric) "EUE"%string then
    match agg_of period_agg_method with
    | Some a => Some (groupby_day tindex a dfeue)
    | None => None
    end
  else if String.eqb (upper stress_metric) "NEUE"%string then
    let dfload := mk_frame (index dfeue) (columns (rename_groupby_sum rmap dfload0))
                    (cell (rename_groupby_sum rmap dfload0)) in
    if String.eqb period_agg_method "sum"%string then
      Some (scale_frame ppm (div_frame (groupby_day tindex agg_sum dfeue)
                                       (groupby_day tindex agg_sum dfload)))
    else if String.eqb period_agg_method "max"%string then
      Some (scale_frame ppm (groupby_day tindex agg_max (div_frame dfeue dfload)))
    else None
  else None.

(** The value at day [d] and aggregate region [R], if both labels exist. *)
Definition lookup (f : frame day) (d : day) (R : string) : option Q :=
  if existsb (day_eqb d) (index f) && existsb (String.eqb R) (columns f)
  then Some (cell f d R) else None.

End StressMetric.

(** ** [main]: the loop over the stress-period criteria *)

Module CriterionLoop.
Import Table.

(** [str.split(sep)] *)
Fixpoint split_on (sep : Ascii.ascii) (s : string) : list string :=
  match s with
  | EmptyString => [EmptyString]
  | String ch t =>
      let rest := split_on sep t in
      if Ascii.eqb ch sep then EmptyString :: rest
      else match rest with
           | [] => [String ch EmptyString]
           | w :: ws => String ch w :: ws
           end
  end.

(** A row of the per-criterion period table ([eue_periods] after
    [reset_index().set_index('actual_period')]). *)
Record prow := mk_prow {
  actual_period : string; py : nat; pm : nat; pd : nat; pr : string; pmetric : Q }.

(** What [main] reads for each criterion.  [eue_periods c] is the table
    [get_stress_periods] returns for criterion [c]; [failing c] is the index of
    [this_test.loc[this_test > float(ppm)]]; [shoulder c row] are the shoulder
    periods (keyed 'after_...'/'before_...') added for one high period. *)
Record env := mk_env {
  eue_periods : string -> list prow;
  failing : string -> list string;
  existing_periods : list string;           (* stressperiods_this_iteration.actual_period *)
  stress_increment : nat;                   (* int(sw.GSw_PRM_StressIncrement) *)
  storage_cutoff_off : bool;                (* GSw_PRM_StressStorageCutoff in off/0/false *)
  energy_empty : bool;                      (* dfenergy_r.empty *)
  shoulder : string -> prow -> list (string * prow) }.

(** The lines [main] prints for each tested criterion. *)
Inductive event := Passed (c : string) | Failed (c : string).

Record state := mk_state {
  eue_sorted : list (string * list prow);                 (* _eue_sorted_periods *)
  failed : list (string * list string);                   (* failed *)
  high_eue : list ((string * string) * list prow);        (* high_eue_periods *)
  shoulders : list ((string * string) * prow);            (* shoulder_periods *)
  log : list event }.

Definition init_state : state := mk_state [] [] [] [] [].

(** [criterion.split('_')]: the third field is the stress metric. *)
Definition metric_of (c : string) : string := nth 2 (split_on "_"%char c) EmptyString.

(** [.sort_values(stress_metric, ascending=False)] *)
Definition sort_desc_metric (l : list prow) : list prow :=
  sort_by (fun a b => Qltb (pmetric b) (pmetric a)) l.

Definition mem (x : string) (l : list string) : bool := existsb (String.eqb x) l.

Definition same_day (a b : prow) : bool :=
  (py a =? py b) && (pm a =? pm b) && (pd a =? pd b).

(** [.drop_duplicates(subset=['y','m','d'])], keeping the first. *)
Fixpoint drop_dup_days (seen : list prow) (l : list prow) : list prow :=
  match l with
  | [] => []
  | x :: t => if existsb (same_day x) seen then drop_dup_days seen t
              else x :: drop_dup_days (x :: seen) t
  end.

(** [.groupby('r').head(k)] *)
Fixpoint head_per_region (k : nat) (seen : list string) (l : list prow) : list prow :=
  match l with
  | [] => []
  | x :: t => if count_occ string_dec seen (pr x) <? k
              then x :: head_per_region k (pr x :: seen) t
              else head_per_region k (pr x :: seen) t
  end.

(** [high_eue_periods[criterion, 'high_'+stress_metric]] *)
Definition select_high (e : env) (sorted : list prow) (fr : list string) : list prow :=
  head_per_region (stress_increment e) []
    (drop_dup_days []
       (filter (fun x => mem (pr x) fr && negb (mem (actual_period x) (existing_periods e)))
               sorted)).

(** The body of [for criterion in sw.GSw_PRM_StressThreshold.split('/')],
    with its three [break]s. *)
Fixpoint crit_loop (e : env) (cs : list string) (st : state) : state :=
  match cs with
  | [] => st
  | c :: rest =>
      let sorted := sort_desc_metric (eue_periods e c) in
      let st := mk_state (eue_sorted st ++ [(c, sorted)]) (failed st) (high_eue st)
                         (shoulders st) (log st) in
      match failing e c with
      | [] =>
          crit_loop e rest
            (mk_state (eue_sorted st) (failed st) (high_eue st) (shoulders st)
                      (log st ++ [Passed c]))
      | fr =>
          let hp := select_high e sorted fr in
          let st := mk_state (eue_sorted st) (failed st ++ [(c, fr)])
                      (high_eue st ++ [((c, String.append "high_" (metric_of c)), hp)])
                      (shoulders st) (log st ++ [Failed c]) in
          if storage_cutoff_off e then st
          else if energy_empty e then st
          else mk_state (eue_sorted st) (failed st) (high_eue st)
                 (shoulders st ++ map (fun kp => ((c, fst kp), snd kp))
                                      (flat_map (shoulder e c) hp))
                 (log st)
      end
  end.

(** [pd.concat({**high_eue_periods, **shoulder_periods}).reset_index()
    .drop_duplicates(subset='actual_period', keep='first')]: rows tagged with
    their (criterion, periodtype) key. *)
Fixpoint dedup_period (seen : list string) (l : list ((string * string) * prow))
  : list ((string * string) * prow) :=
  match l with
  | [] => []
  | x :: t => if mem (actual_period (snd x)) seen then dedup_period seen t
              else x :: dedup_period (actual_period (snd x) :: seen) t
  end.

Definition new_stress_periods (st : state) : list ((string * string) * prow) :=
  dedup_period []
    (flat_map (fun kv => map (fun p => (fst kv, p)) (snd kv)) (high_eue st) ++ shoulders st).

(** The criterion loop of [main] on [sw.GSw_PRM_StressThreshold]. *)
Definition run_criteria (e : env) (threshold : string) : state :=
  crit_loop e (split_on "/"%char threshold) init_state.

End CriterionLoop.

(** ** Python string built-ins used on file names and period ids *)

Module PyStr.
Local Open Scope nat_scope.

Definition is_digit (c : Ascii.ascii) : bool :=
  (48 <=? Ascii.nat_of_ascii c) && (Ascii.nat_of_ascii c <=? 57).
Definition digit_val (c : Ascii.ascii) : nat := Ascii.nat_of_ascii c - 48.
Definition digit_char (n : nat) : Ascii.ascii := Ascii.ascii_of_nat (48 + n).

(** [str(n)] for a non-negative integer. *)
Fixpoint str_nat_aux (fuel n : nat) (acc : string) : string :=
  match fuel with
  | 0 => acc
  | S f =>
      let acc' := String (digit_char (n mod 10)) acc in
      if n <? 10 then acc' else str_nat_aux f (n / 10) acc'
  end.
Definition str_nat (n : nat) : string := str_nat_aux (S n) n EmptyString.

(** Zero padding of [strftime]'s [%Y] and [%j]. *)
Definition pad_left (k : nat) (s : string) : string :=
  String.append (string_of_list_ascii (repeat "0"%char (k - String.length s))) s.

(** [str.strip(chars)] *)
Fixpoint lstrip (cs : list Ascii.ascii) (l : list Ascii.ascii) : list Ascii.ascii :=
  match l with
  | [] => []
  | c :: t => if existsb (Ascii.eqb c) cs then lstrip cs t else l
  end.
Definition strip_chars (cs : list Ascii.ascii) (s : string) : string :=
  string_of_list_ascii (rev (lstrip cs (rev (lstrip cs (list_ascii_of_string s))))).

Definition whitespace : list Ascii.ascii :=
  [" "%char; "009"%char; "010"%char; "011"%char; "012"%char; "013"%char].

(** The digits of [int(s)]: at least one digit, single underscores allowed
    between digits. *)
Fixpoint parse_digits (s : string) (acc : nat) (last_digit : bool) : option nat :=
  match s with
  | EmptyString => if last_digit then Some acc else None
  | String c t =>
      if is_digit c then parse_digits t (acc * 10 + digit_val c) true
      else if Ascii.eqb c "_"%char && last_digit then parse_digits t acc false
      else None
  end.

(** [int(s)] on a string; [None] is the [ValueError]. *)
Definition int_py (s : string) : option Z :=
  match strip_chars whitespace s with
  | String c t =>
      if Ascii.eqb c "-"%char then option_map (fun n => (- Z.of_nat n)%Z) (parse_digits t 0 false)
      else if Ascii.eqb c "+"%char then option_map Z.of_nat (parse_digits t 0 false)
      else option_map Z.of_nat (parse_digits (String c t) 0 false)
  | EmptyString => None
  end.

End PyStr.

(** ** Period ids of new stress periods and names of PRAS result files *)

Module PeriodIds.
Import PyStr.
Local Open Scope nat_scope.

(** [day.strftime('y%Yd%j')] from the year and the day of the year. *)
Definition strftime_yd (year doy : nat) : string :=
  String.append "y" (String.append (pad_left 4 (str_nat year))
    (String.append "d" (pad_left 3 (str_nat doy)))).

(** [p = 'w' if sw.GSw_HourlyType == 'wek' else 'd'] *)
Definition period_sep (hourly_type : string) : Ascii.ascii :=
  if String.eqb hourly_type "wek" then "w"%char else "d"%char.

(** The ['year'] and ['yperiod'] columns of [new_stressperiods_write]:
    [int(x.strip('sy').split(p)[0])] and [int(x.strip('sy').split(p)[1])];
    [None] is the [ValueError] or [IndexError]. *)
Definition parse_period (p : Ascii.ascii) (x : string) : option (Z * Z) :=
  match CriterionLoop.split_on p (strip_chars ["s"%char; "y"%char] x) with
  | a :: b :: _ =>
      match int_py a, int_py b with
      | Some y, Some d => Some (y, d)
      | _, _ => None
      end
  | _ => None
  end.

(** [re.match(r"PRAS_[0-9]+i[0-9]+.h5", name)]: [re.match] anchors at the
    start only; [.] is any character but a newline.  [digits_then k s]: a
    non-empty run of digits at the start of [s], followed by a match of [k]. *)
Fixpoint digits_then (k : string -> bool) (s : string) : bool :=
  match s with
  | EmptyString => false
  | String c t => is_digit c && (digits_then k t || k t)
  end.

Definition any_h5 (s : string) : bool :=
  match s with
  | String c (String h (String f _)) =>
      negb (Ascii.eqb c "010"%char) && Ascii.eqb h "h"%char && Ascii.eqb f "5"%char
  | _ => false
  end.

Definition i_digits_any_h5 (s : string) : bool :=
  match s with
  | String c t => Ascii.eqb c "i"%char && digits_then any_h5 t
  | EmptyString => false
  end.

Definition pras_re_match (name : string) : bool :=
  String.prefix "PRAS_" name &&
  digits_then i_digits_any_h5 (substring 5 (String.length name - 5) name).

(** [os.path.basename(infile)[len('PRAS_'):-len('.h5')].split('i')] and the
    two [int] conversions of [get_and_write_neue]. *)
Definition parse_pras_name (name : string) : option (Z * Z) :=
  match CriterionLoop.split_on "i"%char
          (substring 5 (String.length name - 5 - 3) name) with
  | a :: b :: _ =>
      match int_py a, int_py b with
      | Some y, Some it => Some (y, it)
      | _, _ => None
      end
  | _ => None
  end.

(** [f"PRAS_{t}i{iteration}.h5"], the name [get_pras_eue] reads. *)
Definition pras_name (t iteration : nat) : string :=
  String.append "PRAS_" (String.append (str_nat t)
    (String.append "i" (String.append (str_nat iteration) ".h5"))).

End PeriodIds.

(** ** [get_stress_periods]: the table [dfmetric_top] *)

Module MetricTop.
Import Table StressMetric.

(** A row of [dfmetric_period.stack('r')]: day, aggregate region, metric. *)
Definition mrow := (day * string * Q)%type.

Definition m_day (x : mrow) : day := fst (fst x).
Definition m_val (x : mrow) : Q := snd x.

(** [dfmetric_period.stack('r')]: the cells day by day, regions in column order. *)
Definition stack_r (f : frame day) : list mrow :=
  flat_map (fun d => map (fun R => (d, R, cell f d R)) (columns f)) (index f).

(** [.replace(0,np.nan).dropna()] *)
Definition drop_zero (l : list mrow) : list mrow :=
  filter (fun x => negb (Qeq_bool (m_val x) 0)) l.

(** [.reset_index().drop_duplicates(['y','m','d'], keep='first')] *)
Fixpoint drop_dup_day (seen : list day) (l : list mrow) : list mrow :=
  match l with
  | [] => []
  | x :: t => if existsb (day_eqb (m_day x)) seen then drop_dup_day seen t
              else x :: drop_dup_day (m_day x :: seen) t
  end.

(** [dfmetric_top] from the stacked series after [.sort_values(ascending=False)].
    That sort uses an unstable algorithm on one column: the rows of equal
    metric may come in any order, so [metric_top] takes the sorted series. *)
Definition metric_top (sorted : list mrow) : list mrow :=
  drop_dup_day [] (drop_zero sorted).

(** One admissible result of the sort: the stable descending order. *)
Definition sort_desc (l : list mrow) : list mrow :=
  sort_by (fun a b => Qltb (m_val b) (m_val a)) l.

End MetricTop.

(** ** [get_annual_neue]: annual NEUE by region, summed and at the worst hour *)

Module AnnualNeue.
Import Table StressMetric.

(** [dfload] with [dfload.index = dfeue.index] (frames are indexed by hour position). *)
Definition load_on (dfeue dfload : frame nat) : frame nat :=
  mk_frame (index dfeue) (columns dfload) (cell dfload).

(** [(dfeue.rename(columns=rmap).groupby(axis=1, level=0).sum().sum()
      / dfload.rename(columns=rmap).groupby(axis=1, level=0).sum().sum()) * 1e6]
    at region [R]. *)
Definition neue_sum (rmap : string -> string) (dfeue dfload : frame nat) (R : string) : Q :=
  let e := rename_groupby_sum rmap dfeue in
  let l := rename_groupby_sum rmap (load_on dfeue dfload) in
  Qsum (map (fun h => cell e h R) (index e)) / Qsum (map (fun h => cell l h R) (index l)) * ppm.

(** [(dfeue.rename(...).sum() / dfload.rename(...).sum()).max() * 1e6] at
    region [R]; [None] is the NaN of a frame without rows. *)
Definition neue_max (rmap : string -> string) (dfeue dfload : frame nat) (R : string)
  : option Q :=
  let e := rename_groupby_sum rmap dfeue in
  let l := rename_groupby_sum rmap (load_on dfeue dfload) in
  option_map (fun m => m * ppm)
    (Qmax_list (map (fun h => cell e h R / cell l h R) (index e))).

End AnnualNeue.

(** ** [get_pras_eue]: the zonal EUE columns of the PRAS results *)

Module PrasColumns.
Local Open Scope nat_scope.

(** [str.endswith] and [str.startswith] *)
Definition endswith (s suf : string) : bool :=
  (String.length suf <=? String.length s) &&
  String.eqb (substring (String.length s - String.length suf) (String.length suf) s) suf.
Definition startswith (s pre : string) : bool := String.prefix pre s.

Definition eue_tail : string := "_EUE".

(** [c[:-len(eue_tail)]] for a name of at least that length. *)
Definition drop_tail (c : string) : string :=
  substring 0 (String.length c - String.length eue_tail) c.

(** The columns kept, [c.endswith(eue_tail) and not c.startswith('USA')], and
    their new names. *)
Definition keep_col (c : string) : bool := endswith c eue_tail && negb (startswith c "USA").

Definition eue_columns (cols : list string) : list string :=
  map drop_tail (filter keep_col cols).

End PrasColumns.

(** ** [main]: the shoulder days before and after a high-EUE day *)

Module Shoulder.

(** [{'day':24, 'wek':24*5, 'year':24}[sw.GSw_HourlyType]]; [None] is the [KeyError]. *)
Definition periodhours (hourly_type : string) : option nat :=
  if String.eqb hourly_type "day" then Some 24%nat
  else if String.eqb hourly_type "wek" then Some 120%nat
  else if String.eqb hourly_type "year" then Some 24%nat
  else None.

(** [seq[i]] on a Python sequence: a negative [i] counts from the end; [None]
    is the [IndexError]. *)
Definition py_getitem {A} (l : list A) (i : Z) : option A :=
  let n := Z.of_nat (length l) in
  if (i <? 0)%Z then
    if (- n <=? i)%Z then nth_error l (Z.to_nat (n + i)) else None
  else nth_error l (Z.to_nat i).

(** [day_before = timeindex[day_index - periodhours]] and
    [day_after = timeindex[(day_index + periodhours) % len(timeindex)]]. *)
Definition shoulder_days {A} (timeindex : list A) (hourly_type : string) (day_index : nat)
  : option (A * A) :=
  match periodhours hourly_type with
  | None => None
  | Some ph =>
      match py_getitem timeindex (Z.of_nat day_index - Z.of_nat ph),
            py_getitem timeindex (Z.modulo (Z.of_nat (day_index + ph))
                                           (Z.of_nat (length timeindex))) with
      | Some b, Some a => Some (b, a)
      | _, _ => None
      end
  end.

End Shoulder.

(** ** [update_prm]: the regions that failed a criterion *)

Module FailedRegions.
Import CriterionLoop.

(** A row of [failed_regions]: zone [r], its aggregate [region], the
    [hierarchy_level] and the criterion's [ppm]. *)
Record freg := mk_freg { f_r : string; f_region : string; f_level : string; f_ppm : Q }.


Section Collect.
(** [get_rmap(sw, hierarchy_level).reset_index()]: (zone, aggregate region)
    pairs; and Python's [float] on the ppm field. *)
Variable get_rmap : string -> list (string * string).
Variable float_py : string -> option Q.

End Collect.

(** [.drop_duplicates(subset='r', keep='first')] *)
Fixpoint dedup_r (seen : list string) (l : list freg) : list freg :=
  match l with
  | [] => []
  | x :: t => if mem (f_r x) seen then dedup_r seen t
              else x :: dedup_r (f_r x :: seen) t
  end.

(** [failed_regions.sort_values(by=['ppm']).drop_duplicates(subset='r', keep='first')]
    from the table after the (unstable, one-column) sort. *)
Definition most_stringent (sorted : list freg) : list freg := dedup_r [] sorted.

End FailedRegions.

(** ** [update_prm]: the increment of the reserve margin and the new margin *)

Module PrmUpdate.
Import Table UpdatePrm.

(** A row of [dfload_all] after its merges: zone, [target_eue_mwh] and
    [stress_load_mwh]. *)
Record load_row := mk_load { d_r : nat; d_target : Q; d_stress_load : Q }.

(** [(target_eue_mwh <= y1) & (target_eue_mwh >= y2)] *)
Definition seg_ok (target : Q) (p : plf_row) : bool :=
  Qle_bool target (p_y1 p) && Qle_bool (p_y2 p) target.

(** [x1 + (target_eue_mwh - y1) * (1 / slope)] *)
Definition surplus_mwh (target : Q) (p : plf_row) : Q :=
  p_x1 p + (target - p_y1 p) * (1 / p_slope p).

(** [plfs.merge(dfload_all, on='r')], the rows with [seg == 1], and
    [prm_increment = surplus_mwh / stress_load_mwh] as [(r, prm_increment)]. *)
Definition prm_increment_pras (P : list plf_row) (dl : list load_row) : list (nat * Q) :=
  flat_map (fun p =>
    flat_map (fun d =>
      if (p_r p =? d_r d) && seg_ok (d_target d) p
      then [(p_r p, surplus_mwh (d_target d) p / d_stress_load d)] else []) dl) P.





End PrmUpdate.

(** ** Concrete inputs used by the witnesses *)

Module Examples.
Import UpdatePrm StressMetric.

(** Zone 1: sample 0 short 3 MWh then 1 MWh surplus, samples 1 and 2 short 1
    MWh, sample 3 never short; zone 2: samples 0 and 1 short 2 and 5 MWh. *)
Definition ex_rows : list short_row :=
  [mk_short 0 0 1 3; mk_short 0 1 1 (-1); mk_short 1 0 1 1; mk_short 2 0 1 1;
   mk_short 2 1 1 (-5); mk_short 3 0 1 0; mk_short 0 0 2 2; mk_short 1 0 2 5].

(** Two days of two hours, two zones "p1" and "p2" both in region "R". *)
Definition ex_tindex : list day := [(2012,1,1); (2012,1,1); (2012,1,2); (2012,1,2)]%nat.
Definition ex_rmap (c : string) : string := "R"%string.
Definition ex_eue : frame nat :=
  mk_frame [0; 1; 2; 3]%nat ["p1"; "p2"]%string
    (fun h c => if String.eqb c "p1"%string then nth h [1; 0; 0; 0] 0 else nth h [0; 0; 2; 0] 0).
Definition ex_load : frame nat :=
  mk_frame [0; 1; 2; 3]%nat ["p1"; "p2"]%string
    (fun h c => if String.eqb c "p1"%string then nth h [1; 50; 10; 10] 0 else nth h [0; 49; 10; 20] 0).

(** A threshold string with two criteria that both fail; each has one
    candidate day, and storage headroom adds one shoulder day after it. *)
Definition ex_threshold : string := "country_10_EUE_sum/transgrp_10_EUE_sum".

Definition ex_env : CriterionLoop.env :=
  CriterionLoop.mk_env
    (fun c => if String.eqb c "country_10_EUE_sum"%string
              then [CriterionLoop.mk_prow "y2012d005" 2012 1 5 "USA" 40]
              else [CriterionLoop.mk_prow "y2012d100" 2012 4 9 "g1" 30])
    (fun c => if String.eqb c "country_10_EUE_sum"%string then ["USA"%string]
              else ["g1"%string])
    ["y2012d001"%string] 1 false false
    (fun c row => [(String.append "after_" (CriterionLoop.actual_period row),
                    CriterionLoop.mk_prow "y2012d006" 2012 1 6 (CriterionLoop.pr row) 0)]).

End Examples.

(** ** Facts about the table helpers *)

Module TableFacts.
Import Table.

Lemma nth_error_map_ctx {A B} (f : list A -> A -> list A -> B) :
  forall l pre i,
    nth_error (map_ctx f pre l) i =
    match nth_error l i with
    | Some x => Some (f (rev (firstn i l) ++ pre) x (skipn (S i) l))
    | None => None
    end.
Proof.
  induction l as [|x t IH]; intros pre i; [destruct i; reflexivity|].
  destruct i as [|i]; [reflexivity|].
  simpl. rewrite IH. destruct (nth_error t i); [|reflexivity].
  rewrite <- app_assoc. reflexivity.
Qed.

Lemma length_map_ctx {A B} (f : list A -> A -> list A -> B) :
  forall l pre, length (map_ctx f pre l) = length l.
Proof. induction l; simpl; auto. Qed.

Lemma In_map_ctx {A B} (f : list A -> A -> list A -> B) :
  forall l pre y, In y (map_ctx f pre l) ->
  exists l1 x l2, l = l1 ++ x :: l2 /\ y = f (rev l1 ++ pre) x l2.
Proof.
  induction l as [|x t IH]; intros pre y Hy; [destruct Hy|].
  destruct Hy as [<-|Hy].
  - exists [], x, t. auto.
  - destruct (IH _ _ Hy) as (l1 & z & l2 & -> & ->).
    exists (x :: l1), z, l2. simpl. rewrite <- app_assoc. auto.
Qed.

Lemma In_insert_by {A} (ltb : A -> A -> bool) x :
  forall l y, In y (insert_by ltb x l) <-> x = y \/ In y l.
Proof.
  induction l as [|z t IH]; intros y; simpl; [tauto|].
  destruct (ltb x z); simpl; [tauto|]. rewrite IH. tauto.
Qed.

Lemma In_sort_by {A} (ltb : A -> A -> bool) :
  forall l y, In y (sort_by ltb l) <-> In y l.
Proof.
  unfold sort_by. intros l y.
  assert (G : forall acc, In y (fold_left (fun acc x => insert_by ltb x acc) l acc)
                          <-> In y acc \/ In y l).
  { induction l as [|x t IH]; intros acc; simpl; [tauto|].
    rewrite IH, In_insert_by. tauto. }
  rewrite G. simpl. tauto.
Qed.

Lemma Forall_sort_by {A} (ltb : A -> A -> bool) (P : A -> Prop) l :
  Forall P l -> Forall P (sort_by ltb l).
Proof.
  rewrite !Forall_forall. intros H y Hy. apply H. apply (In_sort_by ltb). exact Hy.
Qed.

Section Sorting.
Context {A : Type} (ltb : A -> A -> bool).
Hypothesis ltb_asym : forall x y, ltb x y = true -> ltb y x = false.
Hypothesis ltb_trans_le : forall x y z,
  ltb x y = true -> ltb z y = false -> ltb z x = false.

(** [R a b]: [b] is not strictly before [a]. *)
Definition not_before (a b : A) : Prop := ltb b a = false.

Lemma insert_by_sorted x :
  forall l, StronglySorted not_before l -> StronglySorted not_before (insert_by ltb x l).
Proof.
  induction l as [|y t IH]; intros Hs; simpl.
  - repeat constructor.
  - apply StronglySorted_inv in Hs as [Ht Hy].
    destruct (ltb x y) eqn:E.
    + constructor; [constructor; auto|].
      constructor; [apply ltb_asym; exact E|].
      rewrite Forall_forall in *. intros z Hz. apply (ltb_trans_le x y z E (Hy z Hz)).
    + constructor; [apply IH; exact Ht|].
      rewrite Forall_forall in *. intros z Hz.
      apply In_insert_by in Hz as [<-|Hz]; [exact E|apply Hy; exact Hz].
Qed.

Lemma sort_by_sorted l : StronglySorted not_before (sort_by ltb l).
Proof.
  unfold sort_by.
  assert (G : forall acc, StronglySorted not_before acc ->
            StronglySorted not_before (fold_left (fun acc x => insert_by ltb x acc) l acc)).
  { induction l as [|x t IH]; intros acc Hacc; simpl; [exact Hacc|].
    apply IH, insert_by_sorted, Hacc. }
  apply G. constructor.
Qed.
End Sorting.

Lemma Qsum_nonpos l : Forall (fun q => q <= 0) l -> Qsum l <= 0.
Proof.
  induction 1; simpl; [apply Qle_refl|]. lra.
Qed.

Lemma Qdiv_nat_nonpos v n : v <= 0 -> v / Q_of_nat n <= 0.
Proof.
  intros Hv. unfold Qdiv.
  assert (0 <= / Q_of_nat n).
  { apply Qinv_le_0_compat. unfold Q_of_nat, Qle. simpl. lia. }
  nra.
Qed.

Lemma Qmax_fold_nonpos l : forall m, m <= 0 -> Forall (fun q => q <= 0) l ->
  fold_left Qmax l m <= 0.
Proof.
  induction l as [|x t IH]; intros m Hm Hl; simpl; [exact Hm|].
  inversion Hl; subst. apply IH; [apply Q.max_lub; assumption|assumption].
Qed.

Lemma Qltb_iff a b : Qltb a b = true <-> a < b.
Proof.
  unfold Qltb. rewrite negb_true_iff. split.
  - intros H. apply Qnot_le_lt. intros H'. apply Qle_bool_iff in H'. congruence.
  - intros H. destruct (Qle_bool b a) eqn:E; [|reflexivity].
    apply Qle_bool_iff in E. exfalso. apply (Qlt_not_le _ _ H E).
Qed.

Lemma Qltb_false a b : Qltb a b = false <-> b <= a.
Proof.
  split.
  - intros H. destruct (Qlt_le_dec a b) as [Hl|Hl]; [|exact Hl].
    apply Qltb_iff in Hl. congruence.
  - intros H. destruct (Qltb a b) eqn:E; [|reflexivity].
    apply Qltb_iff in E. exfalso. apply (Qlt_not_le _ _ E H).
Qed.

Lemma firstn_S_nth_error {A} (l : list A) k x :
  nth_error l k = Some x -> firstn (S k) l = firstn k l ++ [x].
Proof.
  revert k. induction l as [|y t IH]; intros k H; [destruct k; discriminate|].
  destruct k as [|k]; simpl in *; [inversion H; reflexivity|].
  f_equal. apply IH, H.
Qed.

End TableFacts.

(** ** Proofs about the shortfall curve of [update_prm] *)

Module UpdatePrmProofs.
Import Table TableFacts UpdatePrm.

(** The table just before the [x1] column: sorted ascending, slopes assigned. *)
Definition asc_table (rows : list short_row) (n : nat) : list plf_row :=
  let p := plfs_init (groupby_r_sample_sum (map clip_row rows)) in
  sort_by asc_ltb (step_slope_cumsum n (step_slope_init
    (sort_by desc_ltb (step_intercept n p)))).

(** Intercept of region [r]: the group sum over [n_samples]. *)
Definition icpt (P : list plf_row) (n : nat) (r : nat) : Q :=
  Qsum (map p_nsm (filter (fun q => r =? p_r q) P)) / Q_of_nat n.

Definition x1_of (A : list plf_row) (i : nat) (a : plf_row) : Q :=
  match find (same_r a) (rev (firstn i A)) with Some q => p_nsm q | None => 0 end.

Definition Dy_prefix (D : list plf_row) (k r : nat) : Q :=
  Qsum (map p_Dy (filter (fun q => r =? p_r q) (rev (firstn k D)))).

Lemma plfs_unfold rows n :
  plfs rows n = step_y2 (step_y1 (step_Dy (step_x2 (step_x1 (asc_table rows n))))).
Proof. reflexivity. Qed.

Lemma asc_ltb_spec p q :
  asc_ltb p q = true <->
  ((p_r p < p_r q)%nat \/ (p_r p = p_r q /\ p_nsm p < p_nsm q)).
Proof.
  unfold asc_ltb. rewrite orb_true_iff, andb_true_iff, Nat.ltb_lt, Nat.eqb_eq, Qltb_iff.
  tauto.
Qed.

Lemma asc_ltb_trans x y z :
  asc_ltb x y = true -> asc_ltb y z = true -> asc_ltb x z = true.
Proof.
  rewrite !asc_ltb_spec. intros [H1|[H1 H2]] [H3|[H3 H4]].
  - left; lia.
  - left; lia.
  - left; lia.
  - right. split; [congruence|]. apply (Qlt_trans _ _ _ H2 H4).
Qed.

Lemma asc_ltb_asym x y : asc_ltb x y = true -> asc_ltb y x = false.
Proof.
  intros H. destruct (asc_ltb y x) eqn:E; [|reflexivity].
  rewrite asc_ltb_spec in H, E.
  destruct H as [H|[H1 H2]], E as [E|[E1 E2]]; try lia.
  exfalso. apply (Qlt_not_le _ _ H2). apply Qlt_le_weak, E2.
Qed.

Lemma asc_ltb_trans_le x y z :
  asc_ltb x y = true -> asc_ltb z y = false -> asc_ltb z x = false.
Proof.
  intros Hxy Hzy. destruct (asc_ltb z x) eqn:E; [|reflexivity].
  rewrite (asc_ltb_trans _ _ _ E Hxy) in Hzy. discriminate.
Qed.

Lemma asc_ltb_false_same_r p q :
  p_r p = p_r q -> asc_ltb p q = false -> p_nsm q <= p_nsm p.
Proof.
  intros Hr H. apply Qnot_lt_le. intros Hlt.
  assert (asc_ltb p q = true) by (apply asc_ltb_spec; right; auto). congruence.
Qed.

Lemma StronglySorted_app_before {A} (R : A -> A -> Prop) l1 x l2 q :
  StronglySorted R (l1 ++ x :: l2) -> In q l1 -> R q x.
Proof.
  induction l1 as [|y t IH]; intros Hs Hq; [destruct Hq|].
  simpl in Hs. apply StronglySorted_inv in Hs as [Hs Hf].
  destruct Hq as [<-|Hq].
  - rewrite Forall_forall in Hf. apply Hf, in_or_app. right. left. reflexivity.
  - apply IH; assumption.
Qed.

Lemma nth_error_decomp {A} (l : list A) i a :
  nth_error l i = Some a -> l = firstn i l ++ a :: skipn (S i) l.
Proof.
  revert i. induction l as [|x t IH]; intros i H; [destruct i; discriminate|].
  destruct i as [|i]; simpl in *; [inversion H; reflexivity|].
  f_equal. apply IH, H.
Qed.

(** Invariant of the rows of [asc_table]. *)
Definition row_inv (P : list plf_row) (n : nat) (a : plf_row) : Prop :=
  0 < p_nsm a /\ p_intercept a = icpt P n (p_r a) /\ p_slope a <= 0.

Lemma plfs_init_pos crit : Forall (fun p => 0 < p_nsm p) (plfs_init crit).
Proof.
  unfold plfs_init. apply Forall_forall. intros p Hp.
  apply in_map_iff in Hp as (e & <- & He). apply filter_In in He as [_ He].
  apply Qltb_iff in He. exact He.
Qed.

Lemma asc_table_inv rows n :
  Forall (row_inv (plfs_init (groupby_r_sample_sum (map clip_row rows))) n)
         (asc_table rows n).
Proof.
  unfold asc_table. set (P := plfs_init _).
  apply Forall_sort_by. apply Forall_forall. intros y Hy.
  unfold step_slope_cumsum in Hy.
  apply In_map_ctx in Hy as (l1 & x & l2 & Hsplit & ->).
  assert (Hx : In x (step_slope_init (sort_by desc_ltb (step_intercept n P)))).
  { rewrite Hsplit. apply in_or_app. right. left. reflexivity. }
  assert (Hm1 : Forall (fun p => p_slope p = -1)
                  (step_slope_init (sort_by desc_ltb (step_intercept n P)))).
  { apply Forall_forall. intros z Hz. apply in_map_iff in Hz as (w & <- & _).
    reflexivity. }
  apply in_map_iff in Hx as (w & <- & Hw).
  apply In_sort_by in Hw. apply in_map_iff in Hw as (v & <- & Hv).
  assert (Hpos : 0 < p_nsm v).
  { pose proof (plfs_init_pos (groupby_r_sample_sum (map clip_row rows))) as Hp.
    rewrite Forall_forall in Hp. apply Hp, Hv. }
  unfold row_inv. simpl. split; [exact Hpos|]. split; [reflexivity|].
  apply Qdiv_nat_nonpos.
  assert (Qsum (map p_slope (filter (same_r (set_slope
            (set_intercept v (Qsum (map p_nsm (filter (same_r v) P)) / Q_of_nat n)) (-1)))
            (rev l1 ++ []))) <= 0).
  { apply Qsum_nonpos. apply Forall_forall. intros q Hq.
    apply in_map_iff in Hq as (z & <- & Hz). apply filter_In in Hz as [Hz _].
    rewrite app_nil_r, <- in_rev in Hz.
    rewrite Forall_forall in Hm1. rewrite (Hm1 z); [lra|].
    rewrite Hsplit. apply in_or_app. left. exact Hz. }
  simpl. lra.
Qed.


Lemma Dy_table_nth A i d :
  nth_error (step_Dy (step_x2 (step_x1 A))) i = Some d ->
  exists a, nth_error A i = Some a /\ p_r d = p_r a /\
    p_Dy d = p_slope a * (p_nsm a - x1_of A i a).
Proof.
  unfold step_Dy, step_x2, step_x1. rewrite !nth_error_map, nth_error_map_ctx.
  destruct (nth_error A i) as [a|]; simpl; intros H; inversion H; subst.
  exists a. rewrite app_nil_r. unfold x1_of. auto.
Qed.

Lemma final_table_nth A i p :
  nth_error (step_y2 (step_y1 (step_Dy (step_x2 (step_x1 A))))) i = Some p ->
  exists a, nth_error A i = Some a /\ p_r p = p_r a /\ p_slope p = p_slope a /\
    p_x1 p = x1_of A i a /\ p_x2 p = p_nsm a /\
    p_Dy p = p_slope a * (p_nsm a - x1_of A i a) /\
    p_y1 p = p_intercept a + Dy_prefix (step_Dy (step_x2 (step_x1 A))) i (p_r a).
Proof.
  unfold step_y2, step_y1. rewrite !nth_error_map_ctx.
  destruct (nth_error (step_Dy (step_x2 (step_x1 A))) i) as [d|] eqn:Ed;
    simpl; intros H; inversion H; subst.
  pose proof Ed as Ed'.
  unfold step_Dy, step_x2, step_x1 in Ed'. rewrite !nth_error_map, nth_error_map_ctx in Ed'.
  destruct (nth_error A i) as [a|]; simpl in Ed'; inversion Ed'; subst.
  exists a. rewrite !app_nil_r. unfold x1_of, Dy_prefix. simpl.
  repeat split; reflexivity.
Qed.

Section Sorted.
Variables (rows : list short_row) (n : nat).
Let P := plfs_init (groupby_r_sample_sum (map clip_row rows)).
Let A := asc_table rows n.

Lemma A_sorted : StronglySorted (not_before asc_ltb) A.
Proof. apply sort_by_sorted; [exact asc_ltb_asym|exact asc_ltb_trans_le]. Qed.

Lemma x1_of_le i a : nth_error A i = Some a -> x1_of A i a <= p_nsm a.
Proof.
  intros Ha. unfold x1_of.
  destruct (find (same_r a) (rev (firstn i A))) as [q|] eqn:Eq.
  - apply find_some in Eq as [Hq Hs]. rewrite <- in_rev in Hq.
    unfold same_r in Hs. apply Nat.eqb_eq in Hs.
    pose proof (nth_error_decomp A i a Ha) as Hd.
    pose proof A_sorted as Hs'. rewrite Hd in Hs'.
    pose proof (StronglySorted_app_before _ _ _ _ q Hs' Hq) as Hnb.
    apply asc_ltb_false_same_r; [exact Hs|exact Hnb].
  - pose proof (asc_table_inv rows n) as Hi. rewrite Forall_forall in Hi.
    destruct (Hi a) as [Hp _]; [apply nth_error_In with i; exact Ha|].
    apply Qlt_le_weak, Hp.
Qed.

Lemma slope_nonpos i a : nth_error A i = Some a -> p_slope a <= 0.
Proof.
  intros Ha. pose proof (asc_table_inv rows n) as Hi. rewrite Forall_forall in Hi.
  destruct (Hi a) as (_ & _ & Hs); [apply nth_error_In with i; exact Ha|exact Hs].
Qed.

Lemma D_nonpos : Forall (fun d => p_Dy d <= 0) (step_Dy (step_x2 (step_x1 A))).
Proof.
  apply Forall_forall. intros d Hd. apply In_nth_error in Hd as [i Hd].
  destruct (Dy_table_nth A i d Hd) as (a & Ha & _ & ->).
  pose proof (x1_of_le i a Ha). pose proof (slope_nonpos i a Ha). nra.
Qed.

Lemma Dy_prefix_step D k r d :
  nth_error D k = Some d ->
  Dy_prefix D (S k) r = if r =? p_r d then p_Dy d + Dy_prefix D k r else Dy_prefix D k r.
Proof.
  intros Hd. unfold Dy_prefix. rewrite (firstn_S_nth_error D k d Hd), rev_unit.
  simpl. destruct (r =? p_r d); reflexivity.
Qed.

Lemma Dy_prefix_mono r : forall i j, (i <= j)%nat ->
  (j <= length (step_Dy (step_x2 (step_x1 A))))%nat ->
  Dy_prefix (step_Dy (step_x2 (step_x1 A))) j r <=
  Dy_prefix (step_Dy (step_x2 (step_x1 A))) i r.
Proof.
  intros i j Hij. induction Hij as [|j Hij IH]; intros Hl; [apply Qle_refl|].
  destruct (nth_error (step_Dy (step_x2 (step_x1 A))) j) as [d|] eqn:Ed.
  2:{ apply nth_error_None in Ed. lia. }
  rewrite (Dy_prefix_step _ _ _ _ Ed).
  assert (p_Dy d <= 0).
  { pose proof D_nonpos as HD. rewrite Forall_forall in HD.
    apply HD, nth_error_In with j, Ed. }
  specialize (IH ltac:(lia)).
  destruct (r =? p_r d); lra.
Qed.

End Sorted.

Lemma length_Dy_table A : length (step_Dy (step_x2 (step_x1 A))) = length A.
Proof. unfold step_Dy, step_x2, step_x1. rewrite !length_map, length_map_ctx. reflexivity. Qed.

(** C1: in sample-informed mode every segment of every region's curve has a
    non-positive slope, [x1 <= x2] and [Dy = slope * (x2 - x1) <= 0]; the
    breakpoints [y1] of one region never increase along the table (which is
    sorted by ascending shortfall within the region); and whenever the curve
    table has a row, the assertion [plfs['Dy'].max() <= 0] holds. *)
Theorem shortfall_curve_nonincreasing (rows : list short_row) (n_samples : nat) :
  let P := plfs rows n_samples in
  Forall (fun p => p_slope p <= 0 /\ p_x1 p <= p_x2 p /\
                   p_Dy p = p_slope p * (p_x2 p - p_x1 p) /\ p_Dy p <= 0) P /\
  (forall i j p q, (i < j)%nat -> nth_error P i = Some p -> nth_error P j = Some q ->
     p_r p = p_r q -> p_y1 q <= p_y1 p) /\
  (P <> [] -> Dy_assert_ok P = true).
Proof.
  intros P.
  assert (HF : Forall (fun p => p_slope p <= 0 /\ p_x1 p <= p_x2 p /\
                   p_Dy p = p_slope p * (p_x2 p - p_x1 p) /\ p_Dy p <= 0) P).
  { apply Forall_forall. intros p Hp. apply In_nth_error in Hp as [i Hp].
    unfold P in Hp. rewrite plfs_unfold in Hp.
    destruct (final_table_nth _ _ _ Hp) as (a & Ha & _ & Hs & Hx1 & Hx2 & HDy & _).
    pose proof (x1_of_le rows n_samples i a Ha).
    pose proof (slope_nonpos rows n_samples i a Ha).
    rewrite Hs, Hx1, Hx2, HDy. repeat split; try lra. nra. }
  split; [exact HF|]. split.
  - intros i j p q Hij Hp Hq Hr. unfold P in Hp, Hq. rewrite plfs_unfold in Hp, Hq.
    destruct (final_table_nth _ _ _ Hp) as (a & Ha & Hra & _ & _ & _ & _ & Hya).
    destruct (final_table_nth _ _ _ Hq) as (b & Hb & Hrb & _ & _ & _ & _ & Hyb).
    rewrite Hya, Hyb.
    pose proof (asc_table_inv rows n_samples) as Hi. rewrite Forall_forall in Hi.
    destruct (Hi a) as (_ & Hia & _); [apply nth_error_In with i; exact Ha|].
    destruct (Hi b) as (_ & Hib & _); [apply nth_error_In with j; exact Hb|].
    assert (Hab : p_r a = p_r b) by congruence.
    rewrite Hia, Hib, Hab.
    assert (Hj : (j < length (asc_table rows n_samples))%nat).
    { apply nth_error_Some. rewrite Hb. discriminate. }
    pose proof (Dy_prefix_mono rows n_samples (p_r b) i j ltac:(lia)
                  ltac:(rewrite length_Dy_table; lia)).
    lra.
  - intros Hne. unfold Dy_assert_ok.
    destruct P as [|p ps] eqn:EP; [congruence|]. simpl.
    apply Qle_bool_iff. inversion HF as [|? ? Hp Hps]; subst.
    apply Qmax_fold_nonpos; [apply Hp|].
    apply Forall_forall. intros d Hd. apply in_map_iff in Hd as (z & <- & Hz).
    rewrite Forall_forall in Hps. apply Hps, Hz.
Qed.

(** The hypothesis of C1's last part holds on [Examples.ex_rows] with four
    samples, and the assertion passes there. *)
Lemma shortfall_curve_nonincreasing_witness :
  plfs Examples.ex_rows 4 <> [] /\ Dy_assert_ok (plfs Examples.ex_rows 4) = true.
Proof.
  assert (Hne : plfs Examples.ex_rows 4 <> []) by (vm_compute; discriminate).
  split; [exact Hne|].
  exact (proj2 (proj2 (shortfall_curve_nonincreasing Examples.ex_rows 4)) Hne).
Defined.

End UpdatePrmProofs.

(** ** Proofs about the per-day NEUE metric of [get_stress_periods] *)

Module StressMetricProofs.
Import Table StressMetric.

Lemma existsb_filter_other {A} (eqb : A -> A -> bool)
    (Heq : forall x y, eqb x y = true <-> x = y) a x :
  eqb a x = false -> forall u,
  existsb (eqb a) (filter (fun y => negb (eqb x y)) u) = existsb (eqb a) u.
Proof.
  intros E u. induction u as [|y u IHu]; [reflexivity|]. simpl.
  destruct (eqb x y) eqn:Exy; simpl.
  - apply Heq in Exy. subst y. rewrite E. exact IHu.
  - rewrite IHu. reflexivity.
Qed.

Lemma existsb_uniq {A} (eqb : A -> A -> bool)
    (Heq : forall x y, eqb x y = true <-> x = y) :
  forall l a, existsb (eqb a) (uniq eqb l) = existsb (eqb a) l.
Proof.
  induction l as [|x t IH]; intros a; [reflexivity|]. simpl.
  destruct (eqb a x) eqn:E; [reflexivity|]. simpl.
  rewrite (existsb_filter_other eqb Heq a x E). apply IH.
Qed.

Lemma day_eqb_iff (a b : day) : day_eqb a b = true <-> a = b.
Proof.
  destruct a as [[y1 m1] d1], b as [[y2 m2] d2]. unfold day_eqb.
  rewrite !andb_true_iff, !Nat.eqb_eq. split.
  - intros [[-> ->] ->]. reflexivity.
  - intros H. inversion H. auto.
Qed.

(** Aggregated hourly value of region [R] ([rename(columns=rmap).groupby(...).sum()]). *)
Definition agg_hour (rmap : string -> string) (f : frame nat) (h : nat) (R : string) : Q :=
  Qsum (map (fun c => cell f h c) (filter (fun c => String.eqb (rmap c) R) (columns f))).

(** Hours of the EUE index that fall on day [d]. *)
Definition hours_of (tindex : list day) (f : frame nat) (d : day) : list nat :=
  filter (fun h => day_eqb (nth h tindex (0, 0, 0)%nat) d) (index f).

Lemma lookup_metric tindex rmap dfeue d R (f : frame day) :
  index f = uniq day_eqb (map (fun h => nth h tindex (0, 0, 0)%nat) (index dfeue)) ->
  columns f = uniq String.eqb (map rmap (columns dfeue)) ->
  existsb (day_eqb d) (map (fun h => nth h tindex (0, 0, 0)%nat) (index dfeue)) = true ->
  existsb (String.eqb R) (map rmap (columns dfeue)) = true ->
  lookup f d R = Some (cell f d R).
Proof.
  intros Hi Hc Hd HR. unfold lookup. rewrite Hi, Hc.
  rewrite (existsb_uniq day_eqb day_eqb_iff), (existsb_uniq String.eqb String.eqb_eq).
  rewrite Hd, HR. reflexivity.
Qed.

(** C2: with [stress_metric] 'NEUE' (any case), under 'sum' the daily metric of
    an aggregate region is the day's summed aggregated EUE over the day's summed
    aggregated load, times 1e6; under 'max' it is the largest hourly ratio of
    aggregated EUE to aggregated load over the day, times 1e6; and on a day
    whose peak-EUE hour is not its peak-load hour the two differ (10000 ppm
    against 1000000 ppm). *)
Theorem neue_sum_and_max_daily_metric :
  (forall tindex rmap sm dfeue dfload d R,
     String.eqb (upper sm) "NEUE"%string = true ->
     existsb (day_eqb d) (map (fun h => nth h tindex (0, 0, 0)%nat) (index dfeue)) = true ->
     existsb (String.eqb R) (map rmap (columns dfeue)) = true ->
     (exists f, metric_period tindex rmap sm "sum" dfeue dfload = Some f /\
        lookup f d R =
          Some (Qsum (map (fun h => agg_hour rmap dfeue h R) (hours_of tindex dfeue d)) /
                Qsum (map (fun h => agg_hour rmap dfload h R) (hours_of tindex dfeue d)) * ppm)) /\
     (exists f, metric_period tindex rmap sm "max" dfeue dfload = Some f /\
        lookup f d R =
          Some (agg_max (map (fun h => agg_hour rmap dfeue h R / agg_hour rmap dfload h R)
                             (hours_of tindex dfeue d)) * ppm))) /\
  (exists tindex rmap dfeue dfload d R fs fm vs vm,
     metric_period tindex rmap "NEUE" "sum" dfeue dfload = Some fs /\
     metric_period tindex rmap "NEUE" "max" dfeue dfload = Some fm /\
     lookup fs d R = Some vs /\ lookup fm d R = Some vm /\ ~ vs == vm).
Proof.
  split.
  - intros tindex rmap sm dfeue dfload d R Hsm Hd HR.
    apply String.eqb_eq in Hsm.
    split; eexists; (split; [unfold metric_period; rewrite Hsm; reflexivity|]);
      (erewrite (lookup_metric tindex rmap dfeue d R); [reflexivity|reflexivity|reflexivity|exact Hd|exact HR]).
  - exists Examples.ex_tindex, Examples.ex_rmap, Examples.ex_eue, Examples.ex_load,
      (2012, 1, 1)%nat, "R"%string.
    do 4 eexists.
    split; [reflexivity|]. split; [reflexivity|].
    split; [vm_compute; reflexivity|]. split; [vm_compute; reflexivity|].
    unfold Qeq. vm_compute. discriminate.
Qed.

(** C2's equations at the example of [Examples]: day 2012-01-01, region "R",
    [stress_metric] written 'neue'. *)
Lemma neue_sum_and_max_daily_metric_witness :
  String.eqb (upper "neue"%string) "NEUE"%string = true /\
  (exists f, metric_period Examples.ex_tindex Examples.ex_rmap "neue"%string "sum"%string
               Examples.ex_eue Examples.ex_load = Some f /\
     lookup f (2012, 1, 1)%nat "R"%string =
       Some (Qsum (map (fun h => agg_hour Examples.ex_rmap Examples.ex_eue h "R"%string)
                       (hours_of Examples.ex_tindex Examples.ex_eue (2012, 1, 1)%nat)) /
             Qsum (map (fun h => agg_hour Examples.ex_rmap Examples.ex_load h "R"%string)
                       (hours_of Examples.ex_tindex Examples.ex_eue (2012, 1, 1)%nat)) * ppm)).
Proof.
  assert (Hsm : String.eqb (upper "neue"%string) "NEUE"%string = true) by reflexivity.
  split; [exact Hsm|].
  exact (proj1 (proj1 neue_sum_and_max_daily_metric Examples.ex_tindex Examples.ex_rmap
           "neue"%string Examples.ex_eue Examples.ex_load (2012, 1, 1)%nat "R"%string Hsm
           eq_refl eq_refl)).
Defined.

End StressMetricProofs.

(** ** Proofs about the criterion loop of [main] *)

Module CriterionLoopProofs.
Import CriterionLoop.

Lemma crit_loop_passing e pre : forall l st,
  Forall (fun c => failing e c = []) pre ->
  exists st', crit_loop e (pre ++ l) st = crit_loop e l st' /\
    eue_sorted st' = eue_sorted st ++ map (fun c => (c, sort_desc_metric (eue_periods e c))) pre /\
    failed st' = failed st /\ high_eue st' = high_eue st /\ shoulders st' = shoulders st /\
    log st' = log st ++ map Passed pre.
Proof.
  induction pre as [|c t IH]; intros l st Hp.
  - exists st. rewrite !app_nil_r. repeat split; reflexivity.
  - inversion Hp as [|? ? Hc Ht]; subst. simpl. rewrite Hc.
    destruct (IH l (mk_state (eue_sorted st ++ [(c, sort_desc_metric (eue_periods e c))])
                   (failed st) (high_eue st) (shoulders st) (log st ++ [Passed c])) Ht)
      as (st' & Heq & H1 & H2 & H3 & H4 & H5).
    exists st'. rewrite Heq, H1, H2, H3, H4, H5. simpl.
    rewrite <- !app_assoc. repeat split; reflexivity.
Qed.

Lemma crit_loop_failing e c post st :
  failing e c <> [] ->
  let st' := crit_loop e (c :: post) st in
  eue_sorted st' = eue_sorted st ++ [(c, sort_desc_metric (eue_periods e c))] /\
  failed st' = failed st ++ [(c, failing e c)] /\
  high_eue st' = high_eue st ++
    [((c, String.append "high_" (metric_of c)),
      select_high e (sort_desc_metric (eue_periods e c)) (failing e c))] /\
  (exists sh, shoulders st' = shoulders st ++ sh /\ Forall (fun kp => fst (fst kp) = c) sh) /\
  log st' = log st ++ [Failed c].
Proof.
  intros Hf. simpl. destruct (failing e c) as [|f fr] eqn:E; [congruence|].
  destruct (storage_cutoff_off e), (energy_empty e); simpl;
    (repeat split; try reflexivity);
    first [ exists []; rewrite app_nil_r; split; [reflexivity|constructor]
          | eexists; split; [reflexivity|];
            apply Forall_forall; intros x Hx; apply in_map_iff in Hx as (y & <- & _);
            reflexivity ].
Qed.

Lemma dedup_period_Forall (P : (string * string) * prow -> Prop) :
  forall l seen, Forall P l -> Forall P (dedup_period seen l).
Proof.
  induction l as [|x t IH]; intros seen H; simpl; [constructor|].
  inversion H; subst. destruct (mem (actual_period (snd x)) seen); auto.
Qed.

(** C3: if the criteria of [GSw_PRM_StressThreshold] before [c] pass and [c]
    fails, the loop stops at [c]: only the criteria up to [c] are tested (in
    order) and have their period tables computed, [c] is the only failed
    criterion, and every high-stress period, every shoulder period and every
    newly added stress period is tagged with [c], whatever the criteria after
    [c] would give. *)
Theorem criteria_stop_at_first_failure e threshold pre c post :
  split_on "/"%char threshold = pre ++ c :: post ->
  Forall (fun c' => failing e c' = []) pre ->
  failing e c <> [] ->
  let st := run_criteria e threshold in
  log st = map Passed pre ++ [Failed c] /\
  map fst (eue_sorted st) = pre ++ [c] /\
  map fst (failed st) = [c] /\
  Forall (fun kv => fst (fst kv) = c) (high_eue st) /\
  Forall (fun kp => fst (fst kp) = c) (shoulders st) /\
  Forall (fun x => fst (fst x) = c) (new_stress_periods st).
Proof.
  intros Hs Hpre Hc st. unfold st, run_criteria. rewrite Hs.
  destruct (crit_loop_passing e pre (c :: post) init_state Hpre)
    as (st' & -> & H1 & H2 & H3 & H4 & H5).
  destruct (crit_loop_failing e c post st' Hc) as (G1 & G2 & G3 & (sh & G4 & Gsh) & G5).
  set (fin := crit_loop e (c :: post) st') in *.
  assert (Hhigh : Forall (fun kv => fst (fst kv) = c) (high_eue fin)).
  { rewrite G3, H3. simpl. repeat constructor. }
  assert (Hsh : Forall (fun kp => fst (fst kp) = c) (shoulders fin)).
  { rewrite G4, H4. exact Gsh. }
  split; [rewrite G5, H5; reflexivity|].
  split; [rewrite G1, H1; cbn [eue_sorted init_state app]; rewrite map_app, map_map;
         cbn; rewrite map_id; reflexivity|].
  split; [rewrite G2, H2; reflexivity|].
  split; [exact Hhigh|]. split; [exact Hsh|].
  unfold new_stress_periods. apply dedup_period_Forall, Forall_app. split; [|exact Hsh].
  apply Forall_forall. intros x Hx. apply in_flat_map in Hx as (kv & Hkv & Hx).
  apply in_map_iff in Hx as (p & <- & _). simpl.
  rewrite Forall_forall in Hhigh. apply Hhigh, Hkv.
Qed.

(** C3 on [Examples.ex_threshold]: both criteria would fail, the second is
    never tested. *)
Lemma criteria_stop_at_first_failure_witness :
  split_on "/"%char Examples.ex_threshold =
    [] ++ "country_10_EUE_sum"%string :: ["transgrp_10_EUE_sum"%string] /\
  failing Examples.ex_env "country_10_EUE_sum"%string <> [] /\
  failing Examples.ex_env "transgrp_10_EUE_sum"%string <> [] /\
  log (run_criteria Examples.ex_env Examples.ex_threshold) =
    [Failed "country_10_EUE_sum"%string].
Proof.
  assert (Hs : split_on "/"%char Examples.ex_threshold =
    [] ++ "country_10_EUE_sum"%string :: ["transgrp_10_EUE_sum"%string]) by reflexivity.
  assert (Hc : failing Examples.ex_env "country_10_EUE_sum"%string <> []) by discriminate.
  split; [exact Hs|]. split; [exact Hc|]. split; [discriminate|].
  exact (proj1 (criteria_stop_at_first_failure Examples.ex_env Examples.ex_threshold
                  [] _ _ Hs (Forall_nil _) Hc)).
Defined.

End CriterionLoopProofs.

(** ** Proofs about period ids and PRAS file names *)

Module PeriodIdProofs.
Import PyStr PeriodIds.
Local Open Scope nat_scope.

Definition digits_str (s : string) : Prop :=
  s <> EmptyString /\ Forall (fun c => is_digit c = true) (list_ascii_of_string s).

Lemma las_app a b :
  list_ascii_of_string (String.append a b) = list_ascii_of_string a ++ list_ascii_of_string b.
Proof. induction a; simpl; [reflexivity|]. rewrite IHa. reflexivity. Qed.

Lemma digit_char_spec k : k < 10 ->
  is_digit (digit_char k) = true /\ digit_val (digit_char k) = k.
Proof.
  intros Hk. unfold is_digit, digit_val, digit_char.
  rewrite Ascii.nat_ascii_embedding by lia.
  split; [apply andb_true_iff; split; apply Nat.leb_le|]; lia.
Qed.

Lemma str_nat_aux_digits fuel : forall n acc,
  Forall (fun c => is_digit c = true) (list_ascii_of_string acc) ->
  fuel > 0 ->
  str_nat_aux fuel n acc <> EmptyString /\
  Forall (fun c => is_digit c = true) (list_ascii_of_string (str_nat_aux fuel n acc)).
Proof.
  induction fuel as [|f IH]; intros n acc Hacc Hf; [lia|]. simpl.
  assert (Hd : is_digit (digit_char (n mod 10)) = true)
    by (apply digit_char_spec, Nat.mod_upper_bound; lia).
  destruct (n <? 10).
  - split; [discriminate|]. simpl. constructor; assumption.
  - destruct f as [|f].
    + simpl. split; [discriminate|]. constructor; assumption.
    + apply IH; [simpl; constructor; assumption|lia].
Qed.

Lemma digits_str_nat n : digits_str (str_nat n).
Proof. apply str_nat_aux_digits; [constructor|lia]. Qed.

Lemma str_nat_aux_parse fuel : forall n acc, n < fuel ->
  exists k, forall m b,
    parse_digits (str_nat_aux fuel n acc) m b = parse_digits acc (m * 10 ^ k + n) true.
Proof.
  induction fuel as [|f IH]; intros n acc Hn; [lia|]. cbn [str_nat_aux].
  destruct (digit_char_spec (n mod 10)) as [Hd Hv]; [apply Nat.mod_upper_bound; lia|].
  destruct (n <? 10) eqn:E.
  - apply Nat.ltb_lt in E. exists 1. intros m b. cbn [parse_digits]. rewrite Hd, Hv.
    rewrite Nat.mod_small by lia. rewrite Nat.pow_1_r. reflexivity.
  - apply Nat.ltb_ge in E.
    destruct (IH (n / 10) (String (digit_char (n mod 10)) acc)) as [k Hk].
    { apply Nat.lt_le_trans with n; [apply Nat.div_lt; lia|lia]. }
    exists (S k). intros m b. rewrite Hk. cbn [parse_digits]. rewrite Hd, Hv. f_equal.
    pose proof (Nat.div_mod_eq n 10) as Hdm. rewrite Nat.pow_succ_r'.
    set (q := n / 10) in *. set (r := n mod 10) in *. set (p := 10 ^ k).
    rewrite Hdm. ring.
Qed.

Lemma parse_str_nat n b : parse_digits (str_nat n) 0 b = Some n.
Proof.
  unfold str_nat. destruct (str_nat_aux_parse (S n) n EmptyString ltac:(lia)) as [k Hk].
  rewrite Hk. reflexivity.
Qed.

Lemma parse_pad k n b : parse_digits (pad_left k (str_nat n)) 0 b = Some n.
Proof.
  unfold pad_left. generalize (k - String.length (str_nat n)) as j. intros j.
  revert b. induction j as [|j IH]; intros b; simpl; [apply parse_str_nat|].
  apply IH.
Qed.

Lemma digits_pad k s : digits_str s -> digits_str (pad_left k s).
Proof.
  intros [Hne Hd]. unfold pad_left. generalize (k - String.length s) as j. intros j.
  induction j as [|j IH]; simpl; [split; assumption|].
  split; [discriminate|]. constructor; [reflexivity|]. apply IH.
Qed.

Lemma lstrip_id cs l :
  Forall (fun c => existsb (Ascii.eqb c) cs = false) l -> lstrip cs l = l.
Proof. intros H. destruct l as [|c t]; [reflexivity|]. inversion H; subst. simpl. rewrite H2. reflexivity. Qed.

Lemma strip_id cs s :
  Forall (fun c => existsb (Ascii.eqb c) cs = false) (list_ascii_of_string s) ->
  strip_chars cs s = s.
Proof.
  intros H. unfold strip_chars. rewrite (lstrip_id cs (list_ascii_of_string s) H).
  rewrite lstrip_id by (apply Forall_rev; exact H).
  rewrite rev_involutive. apply string_of_list_ascii_of_string.
Qed.

Lemma digit_not_in cs c :
  Forall (fun x => is_digit x = false) cs -> is_digit c = true ->
  existsb (Ascii.eqb c) cs = false.
Proof.
  induction 1 as [|x t Hx Ht IH]; intros Hc; [reflexivity|]. simpl. rewrite IH by exact Hc.
  destruct (Ascii.eqb_spec c x); [subst; congruence|reflexivity].
Qed.

Lemma digits_avoid cs s :
  Forall (fun x => is_digit x = false) cs -> digits_str s ->
  Forall (fun c => existsb (Ascii.eqb c) cs = false) (list_ascii_of_string s).
Proof.
  intros Hcs [_ Hd]. apply Forall_forall. intros c Hc.
  rewrite Forall_forall in Hd. apply digit_not_in; [exact Hcs|apply Hd, Hc].
Qed.

Lemma int_py_digits s n :
  digits_str s -> parse_digits s 0 false = Some n -> int_py s = Some (Z.of_nat n).
Proof.
  intros Hs Hp. unfold int_py.
  rewrite strip_id by (apply digits_avoid; [repeat constructor|exact Hs]).
  destruct Hs as [Hne Hd]. destruct s as [|c t]; [congruence|].
  inversion Hd as [|? ? Hc _]; subst.
  assert (Ascii.eqb c "-"%char = false) as -> by
    (destruct (Ascii.eqb_spec c "-"%char); [subst; discriminate|reflexivity]).
  assert (Ascii.eqb c "+"%char = false) as -> by
    (destruct (Ascii.eqb_spec c "+"%char); [subst; discriminate|reflexivity]).
  rewrite Hp. reflexivity.
Qed.

Lemma split_on_none sep s :
  Forall (fun x => Ascii.eqb x sep = false) (list_ascii_of_string s) ->
  CriterionLoop.split_on sep s = [s].
Proof.
  induction s as [|c t IH]; intros H; [reflexivity|].
  inversion H; subst. simpl. rewrite H2, IH by assumption. reflexivity.
Qed.

Lemma split_on_app sep a b :
  Forall (fun x => Ascii.eqb x sep = false) (list_ascii_of_string a) ->
  CriterionLoop.split_on sep (String.append a (String sep b)) =
  a :: CriterionLoop.split_on sep b.
Proof.
  induction a as [|c t IH]; intros H; simpl.
  - rewrite Ascii.eqb_refl. reflexivity.
  - inversion H; subst. rewrite H2, IH by assumption. reflexivity.
Qed.

Lemma digits_no_sep sep s :
  is_digit sep = false -> digits_str s ->
  Forall (fun x => Ascii.eqb x sep = false) (list_ascii_of_string s).
Proof.
  intros Hsep [_ Hd]. apply Forall_forall. intros c Hc. rewrite Forall_forall in Hd.
  specialize (Hd c Hc). destruct (Ascii.eqb_spec c sep); [subst; congruence|reflexivity].
Qed.

Lemma str_app_assoc a b c :
  String.append a (String.append b c) = String.append (String.append a b) c.
Proof. induction a; simpl; [reflexivity|]. rewrite IHa. reflexivity. Qed.

Lemma str_app_empty a : String.append a EmptyString = a.
Proof. induction a; simpl; [reflexivity|]. rewrite IHa. reflexivity. Qed.

Lemma lstrip_head cs c t :
  existsb (Ascii.eqb c) cs = false -> lstrip cs (c :: t) = c :: t.
Proof. intros H. simpl. rewrite H. reflexivity. Qed.

Lemma lstrip_drop cs c t :
  existsb (Ascii.eqb c) cs = true -> lstrip cs (c :: t) = lstrip cs t.
Proof. intros H. simpl. rewrite H. reflexivity. Qed.

Lemma digits_str_cons s :
  digits_str s -> exists c t, list_ascii_of_string s = c :: t /\ is_digit c = true.
Proof.
  intros [Hne Hd]. destruct s as [|c t]; [congruence|]. inversion Hd; subst.
  exists c, (list_ascii_of_string t). split; [reflexivity|assumption].
Qed.

Lemma digits_str_last s :
  digits_str s -> exists c t, rev (list_ascii_of_string s) = c :: t /\ is_digit c = true.
Proof.
  intros [Hne Hd]. destruct (rev (list_ascii_of_string s)) as [|c t] eqn:E.
  - apply (f_equal (@rev _)) in E. rewrite rev_involutive in E. simpl in E.
    destruct s; [congruence|discriminate].
  - exists c, t. split; [reflexivity|]. rewrite Forall_forall in Hd. apply Hd.
    apply in_rev. rewrite E. left. reflexivity.
Qed.

(** What [x.strip('sy')] leaves of an id [y%Yd%j]. *)
Lemma strip_sy_strftime y doy :
  strip_chars ["s"%char; "y"%char] (strftime_yd y doy) =
  String.append (pad_left 4 (str_nat y)) (String "d" (pad_left 3 (str_nat doy))).
Proof.
  set (Y := pad_left 4 (str_nat y)). set (J := pad_left 3 (str_nat doy)).
  assert (HY : digits_str Y) by apply digits_pad, digits_str_nat.
  assert (HJ : digits_str J) by apply digits_pad, digits_str_nat.
  assert (Hcs : Forall (fun x => is_digit x = false) ["s"%char; "y"%char]) by repeat constructor.
  unfold strip_chars, strftime_yd. fold Y J.
  cbn [String.append list_ascii_of_string]. rewrite las_app. cbn [list_ascii_of_string].
  rewrite lstrip_drop by reflexivity.
  destruct (digits_str_cons Y HY) as [c [t [Ec Hc]]]. rewrite Ec.
  rewrite <- app_comm_cons, lstrip_head, app_comm_cons, <- Ec
    by (apply digit_not_in; assumption).
  rewrite rev_app_distr. cbn [rev]. rewrite <- app_assoc.
  destruct (digits_str_last J HJ) as [c' [t' [Ec' Hc']]]. rewrite Ec'.
  rewrite <- app_comm_cons, lstrip_head, app_comm_cons, <- Ec'
    by (apply digit_not_in; assumption).
  rewrite app_assoc.
  change ((rev (list_ascii_of_string J) ++ ["d"%char]) ++ rev (list_ascii_of_string Y))
    with (rev ("d"%char :: list_ascii_of_string J) ++ rev (list_ascii_of_string Y)).
  rewrite <- rev_app_distr, rev_involutive.
  change ("d"%char :: list_ascii_of_string J) with (list_ascii_of_string (String "d" J)).
  rewrite <- las_app. apply string_of_list_ascii_of_string.
Qed.

(** X1: the id written by [day.strftime('y%Yd%j')] reads back, through the
    ['year'] and ['yperiod'] columns of [new_stressperiods_write] with the
    separator of a daily [GSw_HourlyType], as the year and the day of the year. *)
Theorem period_id_roundtrip (y doy : nat) :
  parse_period (period_sep "day") (strftime_yd y doy) = Some (Z.of_nat y, Z.of_nat doy).
Proof.
  unfold parse_period. replace (period_sep "day") with "d"%char by reflexivity.
  rewrite strip_sy_strftime.
  assert (HY : digits_str (pad_left 4 (str_nat y))) by apply digits_pad, digits_str_nat.
  assert (HJ : digits_str (pad_left 3 (str_nat doy))) by apply digits_pad, digits_str_nat.
  rewrite split_on_app by (apply digits_no_sep; [reflexivity|exact HY]).
  rewrite split_on_none by (apply digits_no_sep; [reflexivity|exact HJ]).
  rewrite (int_py_digits _ y HY) by apply parse_pad.
  rewrite (int_py_digits _ doy HJ) by apply parse_pad.
  reflexivity.
Qed.

(** X2: with [GSw_HourlyType = 'wek'] the separator is ['w'], which an id
    [y%Yd%j] of a shoulder period does not contain: [split('w')] gives one
    piece and the ['yperiod'] column fails. *)
Theorem period_id_wek_fails (y doy : nat) :
  CriterionLoop.split_on (period_sep "wek") (strip_chars ["s"%char; "y"%char] (strftime_yd y doy))
  = [strip_chars ["s"%char; "y"%char] (strftime_yd y doy)] /\
  parse_period (period_sep "wek") (strftime_yd y doy) = None.
Proof.
  assert (HY : digits_str (pad_left 4 (str_nat y))) by apply digits_pad, digits_str_nat.
  assert (HJ : digits_str (pad_left 3 (str_nat doy))) by apply digits_pad, digits_str_nat.
  assert (Hs : CriterionLoop.split_on (period_sep "wek")
                 (strip_chars ["s"%char; "y"%char] (strftime_yd y doy))
               = [strip_chars ["s"%char; "y"%char] (strftime_yd y doy)]).
  { apply split_on_none. rewrite strip_sy_strftime, las_app. apply Forall_app. split.
    - apply digits_no_sep; [reflexivity|exact HY].
    - constructor; [reflexivity|]. apply digits_no_sep; [reflexivity|exact HJ]. }
  split; [exact Hs|]. unfold parse_period. rewrite Hs. reflexivity.
Qed.

Lemma substring_app a b : substring 0 (String.length a) (String.append a b) = a.
Proof. induction a; simpl; [destruct b; reflexivity|]. rewrite IHa. reflexivity. Qed.

Lemma length_app a b : String.length (String.append a b) = String.length a + String.length b.
Proof. induction a; simpl; [reflexivity|]. rewrite IHa. reflexivity. Qed.

Lemma substring_all s : substring 0 (String.length s) s = s.
Proof. induction s; simpl; [reflexivity|]. rewrite IHs. reflexivity. Qed.

Lemma prefix_app a b : String.prefix a (String.append a b) = true.
Proof.
  induction a as [|c a IH]; [destruct b; reflexivity|]. simpl.
  destruct (Ascii.ascii_dec c c); [exact IH|congruence].
Qed.

Lemma digits_then_app k d r :
  digits_str d -> k r = true -> digits_then k (String.append d r) = true.
Proof.
  intros [Hne Hd] Hk. induction d as [|c t IH]; [congruence|].
  inversion Hd; subst. cbn [String.append digits_then]. rewrite H1. cbn [andb].
  destruct t as [|c' t']; [cbn [String.append]; rewrite Hk; apply orb_true_r|].
  rewrite IH; [reflexivity|discriminate|assumption].
Qed.

Lemma digits_then_app_false k d r :
  Forall (fun c => is_digit c = true) (list_ascii_of_string d) ->
  (forall d1 d2, d = String.append d1 d2 -> k (String.append d2 r) = false) ->
  digits_then k r = false -> digits_then k (String.append d r) = false.
Proof.
  induction d as [|c t IH]; intros Hd Hk Hr; [exact Hr|].
  cbn [String.append digits_then]. rewrite IH.
  - rewrite (Hk (String c EmptyString) t eq_refl). apply andb_false_r.
  - inversion Hd; assumption.
  - intros d1 d2 E. apply (Hk (String c d1) d2). rewrite E. reflexivity.
  - exact Hr.
Qed.

(** X3: the file [PRAS_{t}i{iteration}.h5] written for a solve year and
    iteration passes the filter of [get_and_write_neue], and its name is read
    back as that year and iteration. *)
Theorem pras_name_roundtrip (t it : nat) :
  pras_re_match (pras_name t it) = true /\
  parse_pras_name (pras_name t it) = Some (Z.of_nat t, Z.of_nat it).
Proof.
  pose proof (digits_str_nat t) as HT. pose proof (digits_str_nat it) as HI.
  split.
  - unfold pras_re_match, pras_name.
    set (X := String.append (str_nat t) (String.append "i" (String.append (str_nat it) ".h5"))).
    rewrite prefix_app.
    cbn [String.append String.length substring Nat.sub andb].
    rewrite Nat.sub_0_r, substring_all.
    apply digits_then_app; [exact HT|]. cbn [String.append i_digits_any_h5].
    apply digits_then_app; [exact HI|reflexivity].
  - unfold parse_pras_name, pras_name.
    rewrite (str_app_assoc "i" (str_nat it) ".h5"),
      (str_app_assoc (str_nat t) (String.append "i" (str_nat it)) ".h5").
    set (X := String.append (str_nat t) (String.append "i" (str_nat it))).
    cbn [String.append String.length substring Nat.sub].
    rewrite length_app. cbn [String.length].
    replace (String.length X + 3 - 0 - 3) with (String.length X) by lia.
    rewrite substring_app. unfold X. cbn [String.append].
    rewrite split_on_app by (apply digits_no_sep; [reflexivity|exact HT]).
    rewrite split_on_none by (apply digits_no_sep; [reflexivity|exact HI]).
    rewrite (int_py_digits _ t HT) by apply parse_str_nat.
    rewrite (int_py_digits _ it HI) by apply parse_str_nat.
    reflexivity.
Qed.

Lemma digits_suffix d d1 d2 :
  Forall (fun c => is_digit c = true) (list_ascii_of_string d) -> d = String.append d1 d2 ->
  Forall (fun c => is_digit c = true) (list_ascii_of_string d2).
Proof. intros H ->. rewrite las_app in H. apply Forall_app in H. tauto. Qed.

Lemma any_h5_dash d suf :
  Forall (fun c => is_digit c = true) (list_ascii_of_string d) ->
  String.prefix "h5" suf = false ->
  any_h5 (String.append d (String "-" suf)) = false.
Proof.
  intros Hd Hp. destruct d as [|c [|c' r]]; cbn [String.append any_h5].
  - destruct suf as [|h [|f r]]; try reflexivity.
    destruct (Ascii.eqb_spec h "h"%char); [subst|rewrite andb_false_r; reflexivity].
    destruct (Ascii.eqb_spec f "5"%char); [subst|apply andb_false_r].
    destruct r; discriminate Hp.
  - destruct suf; [reflexivity|]. change (Ascii.eqb "-" "h") with false.
    rewrite andb_false_r. reflexivity.
  - inversion Hd as [|? ? _ Hd']; inversion Hd' as [|? ? Hc' _]; subst.
    destruct (Ascii.eqb_spec c' "h"%char); [subst; discriminate|].
    destruct (String.append r (String "-" suf)); [reflexivity|].
    rewrite andb_false_r. reflexivity.
Qed.

(** X4: the other files of the PRAS folder that the glob [PRAS_*.h5] of
    [get_and_write_neue] also finds, [PRAS_{t}i{iteration}-energy.h5] and
    [PRAS_{t}i{iteration}-shortfall_samples.h5] and any name continuing
    [PRAS_{t}i{iteration}-] with a text not starting with [h5], are dropped
    by its [re.match] filter. *)
Theorem pras_name_dash_filtered (t it : nat) (suf : string) :
  String.prefix "h5" suf = false ->
  pras_re_match (String.append "PRAS_" (String.append (str_nat t)
    (String.append "i" (String.append (str_nat it) (String "-" suf))))) = false.
Proof.
  intros Hp. pose proof (digits_str_nat t) as [_ HT]. pose proof (digits_str_nat it) as [_ HI].
  unfold pras_re_match.
  set (X := String.append (str_nat t) (String.append "i" (String.append (str_nat it) (String "-" suf)))).
  rewrite prefix_app. cbn [String.append String.length substring Nat.sub andb].
  rewrite Nat.sub_0_r, substring_all. unfold X. cbn [String.append].
  apply digits_then_app_false; [exact HT| |reflexivity].
  intros d1 d2 E. pose proof (digits_suffix _ _ _ HT E) as Hd2.
  destruct d2 as [|c r]; cbn [String.append i_digits_any_h5].
  - rewrite Ascii.eqb_refl. cbn [andb].
    apply digits_then_app_false; [exact HI| |reflexivity].
    intros e1 e2 E'. apply any_h5_dash; [exact (digits_suffix _ _ _ HI E')|exact Hp].
  - inversion Hd2 as [|? ? Hc _]; subst.
    destruct (Ascii.eqb_spec c "i"%char); [subst; discriminate|reflexivity].
Qed.

(** The name [PRAS_2030i0-energy.h5] written by [main] is dropped by the
    filter of [get_and_write_neue]. *)
Lemma pras_name_dash_filtered_witness :
  String.prefix "h5" "energy.h5" = false /\
  pras_re_match (String.append "PRAS_" (String.append (str_nat 2030)
    (String.append "i" (String.append (str_nat 0) (String "-" "energy.h5"))))) = false.
Proof.
  split; [reflexivity|]. apply (pras_name_dash_filtered 2030 0 "energy.h5"). reflexivity.
Defined.

End PeriodIdProofs.

(** ** More proofs about the criterion loop of [main] *)

Module CriterionLoopMore.
Import Table TableFacts CriterionLoop FailedRegions.
Local Open Scope nat_scope.

(** [subseq l1 l2]: [l1] is [l2] with some rows dropped. *)
Inductive subseq {A} : list A -> list A -> Prop :=
| subseq_nil : subseq [] []
| subseq_skip x l1 l2 : subseq l1 l2 -> subseq l1 (x :: l2)
| subseq_keep x l1 l2 : subseq l1 l2 -> subseq (x :: l1) (x :: l2).

Lemma subseq_In {A} (l1 l2 : list A) x : subseq l1 l2 -> In x l1 -> In x l2.
Proof. induction 1; simpl; tauto. Qed.

Lemma subseq_trans {A} (l1 l2 l3 : list A) : subseq l1 l2 -> subseq l2 l3 -> subseq l1 l3.
Proof.
  intros H12 H23. revert l1 H12.
  induction H23 as [|x l2 l3 H23 IH|x l2 l3 H23 IH]; intros l0 H12.
  - exact H12.
  - apply subseq_skip. apply IH, H12.
  - inversion H12 as [|? ? ? H|? ? ? H]; subst.
    + apply subseq_skip. apply IH, H.
    + apply subseq_keep. apply IH, H.
Qed.

Lemma subseq_sorted {A} (R : A -> A -> Prop) (l1 l2 : list A) :
  subseq l1 l2 -> StronglySorted R l2 -> StronglySorted R l1.
Proof.
  induction 1; intros Hs; [constructor| |].
  - apply IHsubseq. inversion Hs; assumption.
  - inversion Hs; subst. constructor; [apply IHsubseq; assumption|].
    rewrite Forall_forall in *. intros y Hy. apply H3. apply (subseq_In l1); assumption.
Qed.

Lemma subseq_ordpairs {A} (R : A -> A -> Prop) (l1 l2 : list A) :
  subseq l1 l2 -> ForallOrdPairs R l2 -> ForallOrdPairs R l1.
Proof.
  induction 1; intros Hs; [constructor| |].
  - apply IHsubseq. inversion Hs; assumption.
  - inversion Hs; subst. constructor; [|apply IHsubseq; assumption].
    rewrite Forall_forall in *. intros y Hy. apply H2. apply (subseq_In l1); assumption.
Qed.

Lemma subseq_filter {A} (f : A -> bool) l : subseq (filter f l) l.
Proof.
  induction l as [|x t IH]; simpl; [constructor|].
  destruct (f x); constructor; exact IH.
Qed.

Lemma subseq_drop_dup_days l : forall seen, subseq (drop_dup_days seen l) l.
Proof.
  induction l as [|x t IH]; intros seen; simpl; [constructor|].
  destruct (existsb (same_day x) seen); constructor; apply IH.
Qed.

Lemma subseq_head_per_region k l : forall seen, subseq (head_per_region k seen l) l.
Proof.
  induction l as [|x t IH]; intros seen; simpl; [constructor|].
  destruct (count_occ string_dec seen (pr x) <? k); constructor; apply IH.
Qed.

Lemma same_day_sym a b : same_day a b = same_day b a.
Proof. unfold same_day. rewrite (Nat.eqb_sym (py a)), (Nat.eqb_sym (pm a)), (Nat.eqb_sym (pd a)). reflexivity. Qed.

Lemma drop_dup_days_In l : forall seen x,
  In x (drop_dup_days seen l) -> existsb (same_day x) seen = false.
Proof.
  induction l as [|y t IH]; intros seen x Hx; [destruct Hx|]. simpl in Hx.
  destruct (existsb (same_day y) seen) eqn:E; [apply (IH seen x Hx)|].
  destruct Hx as [<-|Hx]; [exact E|].
  specialize (IH _ _ Hx). simpl in IH. apply orb_false_iff in IH. tauto.
Qed.

Lemma drop_dup_days_distinct l : forall seen,
  ForallOrdPairs (fun a b => same_day a b = false) (drop_dup_days seen l).
Proof.
  induction l as [|y t IH]; intros seen; simpl; [constructor|].
  destruct (existsb (same_day y) seen); [apply IH|].
  constructor; [|apply IH]. apply Forall_forall. intros z Hz.
  apply drop_dup_days_In in Hz. simpl in Hz. apply orb_false_iff in Hz as [Hz _].
  rewrite same_day_sym. exact Hz.
Qed.

Lemma head_per_region_count k R l : forall seen,
  length (filter (fun x => String.eqb (pr x) R) (head_per_region k seen l)) <=
  k - count_occ string_dec seen R.
Proof.
  induction l as [|x t IH]; intros seen; simpl; [lia|].
  destruct (count_occ string_dec seen (pr x) <? k) eqn:E.
  - apply Nat.ltb_lt in E. simpl. specialize (IH (pr x :: seen)). simpl in IH.
    destruct (string_dec (pr x) R) as [<-|Hne].
    + rewrite String.eqb_refl. simpl. lia.
    + apply String.eqb_neq in Hne. rewrite Hne. exact IH.
  - specialize (IH (pr x :: seen)). simpl in IH.
    destruct (string_dec (pr x) R); lia.
Qed.

Definition desc_metric (a b : prow) : Prop := (pmetric b <= pmetric a)%Q.

Lemma sort_desc_metric_sorted l : StronglySorted desc_metric (sort_desc_metric l).
Proof.
  set (ltb := fun a b : prow => Qltb (pmetric b) (pmetric a)).
  assert (H : StronglySorted (not_before ltb) (sort_by ltb l)).
  { apply sort_by_sorted.
    - intros x y Hxy. unfold ltb in *. apply Qltb_iff in Hxy.
      apply Qltb_false. apply Qlt_le_weak, Hxy.
    - intros x y z Hxy Hzy. unfold ltb in *. apply Qltb_iff in Hxy.
      apply Qltb_false. apply Qltb_false in Hzy. apply Qle_trans with (pmetric y);
      [exact Hzy|apply Qlt_le_weak, Hxy]. }
  unfold sort_desc_metric. fold ltb.
  induction H as [|a t Ht IH Hf]; constructor; [exact IH|].
  rewrite Forall_forall in *. intros y Hy. specialize (Hf y Hy).
  unfold not_before, ltb in Hf. apply Qltb_false in Hf. exact Hf.
Qed.

(** X5: the high-stress periods [main] adds for a failed criterion are
    periods of the criterion's table whose region failed and which are not
    already stress periods; no two fall on the same day; no region gets more
    than [GSw_PRM_StressIncrement] of them; and they come in descending order
    of the stress metric. *)
Theorem high_periods_selection (e : env) (rows : list prow) (fr : list string) :
  let hp := select_high e (sort_desc_metric rows) fr in
  (forall x, In x hp ->
     In x rows /\ mem (pr x) fr = true /\ mem (actual_period x) (existing_periods e) = false) /\
  ForallOrdPairs (fun a b => same_day a b = false) hp /\
  (forall R, length (filter (fun x => String.eqb (pr x) R) hp) <= stress_increment e) /\
  StronglySorted desc_metric hp.
Proof.
  intros hp.
  set (flt := filter (fun x => mem (pr x) fr && negb (mem (actual_period x) (existing_periods e)))
                     (sort_desc_metric rows)).
  assert (Hsub : subseq hp (drop_dup_days [] flt)) by apply subseq_head_per_region.
  assert (Hsub2 : subseq hp flt) by
    (apply subseq_trans with (drop_dup_days [] flt); [exact Hsub|apply subseq_drop_dup_days]).
  split; [|split; [|split]].
  - intros x Hx. apply (subseq_In _ _ x Hsub2) in Hx. apply filter_In in Hx as [Hx Hm].
    apply andb_true_iff in Hm as [Hm1 Hm2]. apply negb_true_iff in Hm2.
    split; [apply (In_sort_by (fun a b => Qltb (pmetric b) (pmetric a)) rows x), Hx|].
    split; assumption.
  - apply (subseq_ordpairs _ _ _ Hsub), drop_dup_days_distinct.
  - intros R. pose proof (head_per_region_count (stress_increment e) R
                            (drop_dup_days [] flt) []) as H. simpl in H.
    rewrite Nat.sub_0_r in H. exact H.
  - apply (subseq_sorted _ _ _ Hsub2). apply (subseq_sorted _ _ _ (subseq_filter _ _)).
    apply sort_desc_metric_sorted.
Qed.







End CriterionLoopMore.

(** ** Proofs about [dfmetric_top] of [get_stress_periods] *)

Module MetricTopProofs.
Import Table StressMetric MetricTop.

Definition desc_val (a b : mrow) : Prop := m_val b <= m_val a.

Lemma day_eqb_refl d : day_eqb d d = true.
Proof. apply StressMetricProofs.day_eqb_iff. reflexivity. Qed.

Lemma day_eqb_sym a b : day_eqb a b = day_eqb b a.
Proof.
  destruct (day_eqb a b) eqn:E, (day_eqb b a) eqn:F; try reflexivity;
    apply StressMetricProofs.day_eqb_iff in E || apply StressMetricProofs.day_eqb_iff in F;
    subst; rewrite day_eqb_refl in *; congruence.
Qed.

Lemma drop_dup_day_In l : forall seen x,
  In x (drop_dup_day seen l) -> In x l /\ existsb (day_eqb (m_day x)) seen = false.
Proof.
  induction l as [|y t IH]; intros seen x Hx; [destruct Hx|]. simpl in Hx.
  destruct (existsb (day_eqb (m_day y)) seen) eqn:E.
  - destruct (IH seen x Hx). split; [right|]; assumption.
  - destruct Hx as [<-|Hx]; [split; [left; reflexivity|exact E]|].
    destruct (IH _ _ Hx) as [Hi Hm]. simpl in Hm. apply orb_false_iff in Hm.
    split; [right; exact Hi|tauto].
Qed.

Lemma drop_dup_day_distinct l : forall seen,
  ForallOrdPairs (fun a b => day_eqb (m_day a) (m_day b) = false) (drop_dup_day seen l).
Proof.
  induction l as [|y t IH]; intros seen; simpl; [constructor|].
  destruct (existsb (day_eqb (m_day y)) seen); [apply IH|].
  constructor; [|apply IH]. apply Forall_forall. intros z Hz.
  apply drop_dup_day_In in Hz as [_ Hz]. simpl in Hz. apply orb_false_iff in Hz as [Hz _].
  rewrite day_eqb_sym. exact Hz.
Qed.

Lemma drop_dup_day_sorted l : forall seen,
  StronglySorted desc_val l -> StronglySorted desc_val (drop_dup_day seen l).
Proof.
  induction l as [|y t IH]; intros seen Hs; simpl; [constructor|].
  apply StronglySorted_inv in Hs as [Ht Hy].
  destruct (existsb (day_eqb (m_day y)) seen); [apply IH, Ht|].
  constructor; [apply IH, Ht|]. rewrite Forall_forall in *. intros z Hz.
  apply Hy. apply (drop_dup_day_In t _ z Hz).
Qed.

Lemma drop_dup_day_max l : forall seen, StronglySorted desc_val l ->
  forall y, In y l -> existsb (day_eqb (m_day y)) seen = true \/
    exists x, In x (drop_dup_day seen l) /\ day_eqb (m_day x) (m_day y) = true /\
              m_val y <= m_val x.
Proof.
  induction l as [|z t IH]; intros seen Hs y Hy; [destruct Hy|].
  apply StronglySorted_inv in Hs as [Ht Hz]. simpl.
  destruct (existsb (day_eqb (m_day z)) seen) eqn:E.
  - destruct Hy as [<-|Hy]; [left; exact E|]. apply IH; assumption.
  - destruct Hy as [<-|Hy].
    + right. exists z. split; [left; reflexivity|]. split; [apply day_eqb_refl|apply Qle_refl].
    + destruct (IH (m_day z :: seen) Ht y Hy) as [Hm|(x & Hx & Hd & Hv)].
      * simpl in Hm. apply orb_true_iff in Hm as [Hm|Hm]; [|left; exact Hm].
        right. exists z. split; [left; reflexivity|]. rewrite day_eqb_sym. split; [exact Hm|].
        rewrite Forall_forall in Hz. apply Hz, Hy.
      * right. exists x. split; [right; exact Hx|]. split; assumption.
Qed.

Lemma drop_zero_sorted l : StronglySorted desc_val l -> StronglySorted desc_val (drop_zero l).
Proof.
  induction 1 as [|y t Ht IH Hy]; simpl; [constructor|].
  destruct (negb (Qeq_bool (m_val y) 0)); [|exact IH].
  constructor; [exact IH|]. rewrite Forall_forall in *. intros z Hz.
  apply Hy. apply filter_In in Hz. tauto.
Qed.

Lemma drop_zero_In l x : In x (drop_zero l) <-> In x l /\ ~ m_val x == 0.
Proof.
  unfold drop_zero. rewrite filter_In, negb_true_iff. split.
  - intros [Hx Hz]. split; [exact Hx|]. intros He. apply Qeq_bool_iff in He. congruence.
  - intros [Hx Hz]. split; [exact Hx|]. destruct (Qeq_bool (m_val x) 0) eqn:E; [|reflexivity].
    apply Qeq_bool_iff in E. contradiction.
Qed.

(** X8: whatever order the (unstable) descending sort gives to equal metrics,
    [dfmetric_top] keeps cells of the stacked metric table that are not zero,
    has at most one row per day, has a row for every day with a non-zero
    cell, and that row carries the largest metric of its day; the rows stay
    in descending order. *)
Theorem metric_top_daily_max (f : frame day) (S : list mrow) :
  Permutation (stack_r f) S -> StronglySorted desc_val S ->
  let top := metric_top S in
  (forall x, In x top -> In x (stack_r f) /\ ~ m_val x == 0) /\
  ForallOrdPairs (fun a b => day_eqb (m_day a) (m_day b) = false) top /\
  (forall y, In y (stack_r f) -> ~ m_val y == 0 ->
     exists x, In x top /\ m_day x = m_day y /\ m_val y <= m_val x) /\
  StronglySorted desc_val top.
Proof.
  intros Hp Hs top. split; [|split; [|split]].
  - intros x Hx. apply drop_dup_day_In in Hx as [Hx _]. apply drop_zero_In in Hx as [Hx Hz].
    split; [|exact Hz]. apply (Permutation_in x (Permutation_sym Hp) Hx).
  - apply drop_dup_day_distinct.
  - intros y Hy Hz.
    assert (Hy' : In y (drop_zero S))
      by (apply drop_zero_In; split; [apply (Permutation_in y Hp Hy)|exact Hz]).
    destruct (drop_dup_day_max (drop_zero S) [] (drop_zero_sorted _ Hs) y Hy')
      as [Hm|(x & Hx & Hd & Hv)]; [discriminate|].
    exists x. split; [exact Hx|]. split; [apply StressMetricProofs.day_eqb_iff, Hd|exact Hv].
  - apply drop_dup_day_sorted, drop_zero_sorted, Hs.
Qed.

Definition ex_top_frame : frame day :=
  mk_frame [(2012, 7, 1); (2012, 7, 2)]%nat ["A"; "B"]%string
    (fun d R => if day_eqb d (2012, 7, 1)%nat
                then (if String.eqb R "A" then 5 else 3)
                else (if String.eqb R "A" then 2 else 0)).

(** On two days and two regions whose stacked cells are already in descending
    order: one row per day, the zero cell dropped. *)
Lemma metric_top_daily_max_witness :
  Permutation (stack_r ex_top_frame) (stack_r ex_top_frame) /\
  StronglySorted desc_val (stack_r ex_top_frame) /\
  map m_val (metric_top (stack_r ex_top_frame)) = [5; 2].
Proof.
  assert (Hs : StronglySorted desc_val (stack_r ex_top_frame)).
  { vm_compute. repeat constructor; unfold desc_val, m_val; simpl; discriminate. }
  split; [apply Permutation_refl|]. split; [exact Hs|].
  pose proof (metric_top_daily_max ex_top_frame _ (Permutation_refl _) Hs) as _.
  reflexivity.
Defined.

End MetricTopProofs.

(** ** Proofs about the most stringent criterion per zone in [update_prm] *)

Module FailedRegionsProofs.
Import Table CriterionLoop FailedRegions.

Definition asc_ppm (a b : freg) : Prop := f_ppm a <= f_ppm b.

Lemma dedup_r_In l : forall seen x,
  In x (dedup_r seen l) -> In x l /\ mem (f_r x) seen = false.
Proof.
  induction l as [|y t IH]; intros seen x Hx; [destruct Hx|]. simpl in Hx.
  destruct (mem (f_r y) seen) eqn:E.
  - destruct (IH seen x Hx). split; [right|]; assumption.
  - destruct Hx as [<-|Hx]; [split; [left; reflexivity|exact E]|].
    destruct (IH _ _ Hx) as [Hi Hm]. simpl in Hm. apply orb_false_iff in Hm.
    split; [right; exact Hi|tauto].
Qed.

Lemma dedup_r_nodup l : forall seen, NoDup (map f_r (dedup_r seen l)).
Proof.
  induction l as [|y t IH]; intros seen; simpl; [constructor|].
  destruct (mem (f_r y) seen); [apply IH|]. simpl. constructor; [|apply IH].
  intros Hin. apply in_map_iff in Hin as (z & Hz & Hin). apply dedup_r_In in Hin as [_ Hm].
  simpl in Hm. rewrite Hz, String.eqb_refl in Hm. discriminate.
Qed.

Lemma dedup_r_min l : forall seen, StronglySorted asc_ppm l ->
  forall y, In y l -> mem (f_r y) seen = true \/
    exists x, In x (dedup_r seen l) /\ f_r x = f_r y /\ f_ppm x <= f_ppm y.
Proof.
  induction l as [|z t IH]; intros seen Hs y Hy; [destruct Hy|].
  apply StronglySorted_inv in Hs as [Ht Hz]. simpl.
  destruct (mem (f_r z) seen) eqn:E.
  - destruct Hy as [<-|Hy]; [left; exact E|]. apply IH; assumption.
  - destruct Hy as [<-|Hy].
    + right. exists z. split; [left; reflexivity|]. split; [reflexivity|apply Qle_refl].
    + destruct (IH (f_r z :: seen) Ht y Hy) as [Hm|(x & Hx & Hd & Hv)].
      * simpl in Hm. apply orb_true_iff in Hm as [Hm|Hm]; [|left; exact Hm].
        apply String.eqb_eq in Hm.
        right. exists z. split; [left; reflexivity|]. split; [symmetry; exact Hm|].
        rewrite Forall_forall in Hz. apply Hz, Hy.
      * right. exists x. split; [right; exact Hx|]. split; assumption.
Qed.

(** X9: after [failed_regions.sort_values(by=['ppm'])] (unstable: any
    ascending order) and [drop_duplicates(subset='r', keep='first')], every
    zone that failed some criterion appears exactly once, with the lowest ppm
    target among its rows: the most stringent criterion. *)
Theorem most_stringent_per_zone (rows S : list freg) :
  Permutation rows S -> StronglySorted asc_ppm S ->
  let out := most_stringent S in
  NoDup (map f_r out) /\
  (forall x, In x out -> In x rows) /\
  (forall y, In y rows -> exists x, In x out /\ f_r x = f_r y /\ f_ppm x <= f_ppm y).
Proof.
  intros Hp Hs out. split; [apply dedup_r_nodup|]. split.
  - intros x Hx. apply dedup_r_In in Hx as [Hx _].
    apply (Permutation_in x (Permutation_sym Hp) Hx).
  - intros y Hy. destruct (dedup_r_min S [] Hs y (Permutation_in y Hp Hy)) as [Hm|Hm];
      [discriminate|exact Hm].
Qed.

(** Zone "p1" failed a 10 ppm and a 1 ppm criterion; the 1 ppm row is kept. *)
Lemma most_stringent_per_zone_witness :
  let S := [mk_freg "p1" "R" "country" 1; mk_freg "p2" "R" "country" 1;
            mk_freg "p1" "g" "transgrp" 10] in
  Permutation S S /\ StronglySorted asc_ppm S /\
  map f_ppm (most_stringent S) = [1; 1].
Proof.
  intros S.
  assert (Hs : StronglySorted asc_ppm S).
  { repeat constructor; unfold asc_ppm; simpl; discriminate. }
  split; [apply Permutation_refl|]. split; [exact Hs|].
  pose proof (most_stringent_per_zone S S (Permutation_refl _) Hs) as _.
  reflexivity.
Defined.

End FailedRegionsProofs.

(** ** Proofs about [get_annual_neue] *)

Module AnnualNeueProofs.
Import Table StressMetric AnnualNeue.

Lemma fold_Qmax_ge_init l : forall m, m <= fold_left Qmax l m.
Proof.
  induction l as [|x t IH]; intros m; simpl; [apply Qle_refl|].
  apply Qle_trans with (Qmax m x); [apply Q.le_max_l|apply IH].
Qed.

Lemma fold_Qmax_ge l : forall m x, In x l -> x <= fold_left Qmax l m.
Proof.
  induction l as [|y t IH]; intros m x Hx; [destruct Hx|]. simpl.
  destruct Hx as [<-|Hx].
  - apply Qle_trans with (Qmax m y); [apply Q.le_max_r|apply fold_Qmax_ge_init].
  - apply IH, Hx.
Qed.

Lemma Qsum_le_scaled (e l : nat -> Q) (M : Q) hs :
  (forall h, In h hs -> 0 < l h /\ e h / l h <= M) ->
  Qsum (map e hs) <= M * Qsum (map l hs).
Proof.
  induction hs as [|h t IH]; intros H; simpl; [lra|].
  destruct (H h (or_introl eq_refl)) as [Hl He].
  assert (Hlt : Qsum (map e t) <= M * Qsum (map l t)) by (apply IH; intros; apply H; right; auto).
  assert (Eh : e h == e h / l h * l h) by (field; apply Qnot_eq_sym, Qlt_not_eq, Hl).
  assert (e h / l h * l h <= M * l h) by (apply Qmult_le_compat_r; [exact He|apply Qlt_le_weak, Hl]).
  rewrite Eh. lra.
Qed.

Lemma Qsum_pos (l : nat -> Q) hs :
  hs <> [] -> (forall h, In h hs -> 0 < l h) -> 0 < Qsum (map l hs).
Proof.
  induction hs as [|h t IH]; intros Hne H; [congruence|]. simpl.
  assert (0 < l h) by (apply H; left; reflexivity).
  destruct t as [|h' t'].
  - simpl. lra.
  - assert (0 < Qsum (map l (h' :: t'))) by (apply IH; [discriminate|intros; apply H; right; auto]).
    lra.
Qed.

(** X10: when the aggregated load of region [R] is positive in every hour, the
    annual NEUE of [get_annual_neue] ('sum': total EUE over total load) never
    exceeds its worst-hour NEUE ('max'), which exists as soon as there is an
    hour. *)
Theorem neue_sum_le_max (rmap : string -> string) (dfeue dfload : frame nat) (R : string) :
  index dfeue <> [] ->
  (forall h, In h (index dfeue) ->
     0 < cell (rename_groupby_sum rmap (load_on dfeue dfload)) h R) ->
  exists m, neue_max rmap dfeue dfload R = Some m /\ neue_sum rmap dfeue dfload R <= m.
Proof.
  intros Hne Hpos. unfold neue_max, neue_sum.
  set (e := rename_groupby_sum rmap dfeue).
  set (l := rename_groupby_sum rmap (load_on dfeue dfload)).
  change (index e) with (index dfeue). change (index l) with (index dfeue).
  destruct (index dfeue) as [|h0 hs] eqn:Ei; [congruence|]. simpl.
  set (M := fold_left Qmax (map (fun h => cell e h R / cell l h R) hs) (cell e h0 R / cell l h0 R)).
  exists (M * ppm). split; [reflexivity|].
  assert (HM : forall h, In h (h0 :: hs) -> 0 < cell l h R /\ cell e h R / cell l h R <= M).
  { intros h Hh. split; [apply Hpos, Hh|]. destruct Hh as [<-|Hh].
    - apply fold_Qmax_ge_init.
    - apply fold_Qmax_ge. apply (in_map (fun h => cell e h R / cell l h R)), Hh. }
  pose proof (Qsum_le_scaled (fun h => cell e h R) (fun h => cell l h R) M (h0 :: hs) HM) as Hs.
  pose proof (Qsum_pos (fun h => cell l h R) (h0 :: hs) ltac:(discriminate)
                (fun h Hh => proj1 (HM h Hh))) as Hp.
  simpl in Hs, Hp. unfold ppm.
  apply Qmult_le_compat_r; [|lra].
  apply Qle_shift_div_r; [exact Hp|]. lra.
Qed.

(** [Examples.ex_eue] and [Examples.ex_load]: the loads of region "R" are
    positive in all four hours; the worst hour is above the annual value. *)
Lemma neue_sum_le_max_witness :
  index Examples.ex_eue <> [] /\
  (forall h, In h (index Examples.ex_eue) ->
     0 < cell (rename_groupby_sum Examples.ex_rmap (load_on Examples.ex_eue Examples.ex_load)) h "R"%string) /\
  exists m, neue_max Examples.ex_rmap Examples.ex_eue Examples.ex_load "R"%string = Some m /\
    neue_sum Examples.ex_rmap Examples.ex_eue Examples.ex_load "R"%string <= m.
Proof.
  assert (H1 : index Examples.ex_eue <> []) by discriminate.
  assert (H2 : forall h, In h (index Examples.ex_eue) ->
     0 < cell (rename_groupby_sum Examples.ex_rmap (load_on Examples.ex_eue Examples.ex_load)) h "R"%string).
  { intros h Hh. simpl in Hh.
    destruct Hh as [<-|[<-|[<-|[<-|[]]]]]; vm_compute; reflexivity. }
  split; [exact H1|]. split; [exact H2|].
  exact (neue_sum_le_max Examples.ex_rmap Examples.ex_eue Examples.ex_load "R"%string H1 H2).
Defined.

End AnnualNeueProofs.

(** ** Proofs about the column names of [get_pras_eue] *)

Module PrasColumnsProofs.
Import PrasColumns.
Local Open Scope nat_scope.

Lemma substring_split s : forall k, k <= String.length s ->
  String.append (substring 0 k s) (substring k (String.length s - k) s) = s.
Proof.
  induction s as [|c t IH]; intros k Hk.
  - destruct k; reflexivity.
  - destruct k as [|k].
    + simpl. f_equal. apply PeriodIdProofs.substring_all.
    + simpl. f_equal. apply IH. simpl in Hk. lia.
Qed.

Lemma drop_tail_app c : endswith c eue_tail = true -> String.append (drop_tail c) eue_tail = c.
Proof.
  unfold endswith, drop_tail. intros H. apply andb_true_iff in H as [Hl He].
  apply Nat.leb_le in Hl. apply String.eqb_eq in He.
  rewrite <- He at 2.
  replace (String.length eue_tail) with (String.length c - (String.length c - String.length eue_tail)) at 3
    by lia.
  apply substring_split. lia.
Qed.

(** X11: the columns [get_pras_eue] keeps are the EUE columns of the zones
    (ending in [_EUE], not starting with [USA]); adding [_EUE] back to the new
    names gives those columns again, so distinct columns keep distinct names. *)
Theorem eue_columns_roundtrip (cols : list string) :
  map (fun n => String.append n eue_tail) (eue_columns cols) = filter keep_col cols /\
  (NoDup cols -> NoDup (eue_columns cols)).
Proof.
  assert (H : map (fun n => String.append n eue_tail) (eue_columns cols) = filter keep_col cols).
  { unfold eue_columns. rewrite map_map. rewrite <- (map_id (filter keep_col cols)) at 2.
    apply map_ext_in. intros c Hc. apply filter_In in Hc as [_ Hk].
    unfold keep_col in Hk. apply andb_true_iff in Hk as [He _]. apply drop_tail_app, He. }
  split; [exact H|]. intros Hnd.
  apply (NoDup_map_inv (fun n => String.append n eue_tail)). rewrite H.
  apply NoDup_filter, Hnd.
Qed.

(** The PRAS column list with a zone, the national total, a non-EUE column and
    a second zone: the names are [p1] and [p3]. *)
Lemma eue_columns_roundtrip_witness :
  NoDup ["p1_EUE"; "USA_EUE"; "p1_LOLE"; "p3_EUE"]%string /\
  NoDup (eue_columns ["p1_EUE"; "USA_EUE"; "p1_LOLE"; "p3_EUE"]%string) /\
  eue_columns ["p1_EUE"; "USA_EUE"; "p1_LOLE"; "p3_EUE"]%string = ["p1"; "p3"]%string.
Proof.
  assert (Hnd : NoDup ["p1_EUE"; "USA_EUE"; "p1_LOLE"; "p3_EUE"]%string).
  { repeat constructor; simpl; intuition discriminate. }
  split; [exact Hnd|]. split; [exact (proj2 (eue_columns_roundtrip _) Hnd)|].
  reflexivity.
Defined.

End PrasColumnsProofs.

(** ** Proofs about the shoulder days of [main] *)

Module ShoulderProofs.
Import Shoulder.
Local Open Scope nat_scope.

(** X12: for an hourly type of the dict and a day index inside the time index
    (which has at least [periodhours] entries), [main] finds both shoulder
    days without an [IndexError]: the index wraps around the end of the time
    index for the day after and around its start for the day before (Python's
    negative index). *)
Theorem shoulder_days_wrap {A} (timeindex : list A) (hourly_type : string) (ph day_index : nat) :
  periodhours hourly_type = Some ph -> day_index < length timeindex -> ph <= length timeindex ->
  exists b a, shoulder_days timeindex hourly_type day_index = Some (b, a) /\
    nth_error timeindex ((day_index + length timeindex - ph) mod length timeindex) = Some b /\
    nth_error timeindex ((day_index + ph) mod length timeindex) = Some a.
Proof.
  intros Hph Hd Hl. set (n := length timeindex) in *.
  assert (Hn : 0 < n) by lia.
  assert (Eb : py_getitem timeindex (Z.of_nat day_index - Z.of_nat ph) =
               nth_error timeindex ((day_index + n - ph) mod n)).
  { unfold py_getitem. fold n.
    destruct (Z.ltb_spec (Z.of_nat day_index - Z.of_nat ph) 0) as [Hlt|Hge].
    - destruct (Z.leb_spec (- Z.of_nat n) (Z.of_nat day_index - Z.of_nat ph)); [|lia].
      f_equal. rewrite Nat.mod_small by lia. lia.
    - f_equal. replace (day_index + n - ph) with ((day_index - ph) + 1 * n) by lia.
      rewrite Nat.Div0.mod_add, Nat.mod_small by lia. lia. }
  assert (Ea : py_getitem timeindex (Z.modulo (Z.of_nat (day_index + ph)) (Z.of_nat n)) =
               nth_error timeindex ((day_index + ph) mod n)).
  { unfold py_getitem. fold n. rewrite <- Nat2Z.inj_mod.
    destruct (Z.ltb_spec (Z.of_nat ((day_index + ph) mod n)) 0); [lia|].
    rewrite Nat2Z.id. reflexivity. }
  destruct (nth_error timeindex ((day_index + n - ph) mod n)) as [b|] eqn:Hb.
  2:{ apply nth_error_None in Hb. pose proof (Nat.mod_upper_bound (day_index + n - ph) n). lia. }
  destruct (nth_error timeindex ((day_index + ph) mod n)) as [a|] eqn:Ha.
  2:{ apply nth_error_None in Ha. pose proof (Nat.mod_upper_bound (day_index + ph) n). lia. }
  exists b, a. split; [|split; reflexivity].
  unfold shoulder_days. rewrite Hph. fold n. rewrite Eb, Ea. reflexivity.
Qed.

(** Thirty hours, daily periods: the day before hour 3 is hour 9 (from the
    end), the day after is hour 27. *)
Lemma shoulder_days_wrap_witness :
  periodhours "day" = Some 24 /\ 3 < length (seq 0 30) /\ 24 <= length (seq 0 30) /\
  shoulder_days (seq 0 30) "day" 3 = Some (9, 27).
Proof.
  assert (H1 : periodhours "day" = Some 24) by reflexivity.
  assert (H2 : 3 < length (seq 0 30)) by (simpl; lia).
  assert (H3 : 24 <= length (seq 0 30)) by (simpl; lia).
  split; [exact H1|]. split; [exact H2|]. split; [exact H3|].
  pose proof (shoulder_days_wrap (seq 0 30) "day" 24 3 H1 H2 H3) as _.
  reflexivity.
Defined.

End ShoulderProofs.

(** ** Proofs about the reserve-margin increment of [update_prm] *)

Module PrmUpdateProofs.
Import Table TableFacts UpdatePrm UpdatePrmProofs PrmUpdate.

Lemma Q_of_nat_pos n : (0 < n)%nat -> 0 < Q_of_nat n.
Proof.
  intros Hn. unfold Q_of_nat, Qlt. simpl. rewrite Z.mul_1_r. lia.
Qed.

(** With at least one sample every slope of [asc_table] is negative. *)
Lemma asc_table_slope_neg rows n :
  (0 < n)%nat -> Forall (fun a => p_slope a < 0) (asc_table rows n).
Proof.
  intros Hn. unfold asc_table. set (P := plfs_init _).
  apply Forall_sort_by. apply Forall_forall. intros y Hy.
  unfold step_slope_cumsum in Hy.
  apply In_map_ctx in Hy as (l1 & x & l2 & Hsplit & ->).
  assert (Hm1 : Forall (fun p => p_slope p = -1)
                  (step_slope_init (sort_by desc_ltb (step_intercept n P)))).
  { apply Forall_forall. intros z Hz. apply in_map_iff in Hz as (w & <- & _). reflexivity. }
  assert (Hx : p_slope x = -1).
  { rewrite Forall_forall in Hm1. apply Hm1. rewrite Hsplit. apply in_or_app. right. left. reflexivity. }
  assert (Hs : Qsum (map p_slope (filter (same_r x) (rev l1 ++ []))) <= 0).
  { apply Qsum_nonpos. apply Forall_forall. intros q Hq.
    apply in_map_iff in Hq as (z & <- & Hz). apply filter_In in Hz as [Hz _].
    rewrite app_nil_r, <- in_rev in Hz.
    rewrite Forall_forall in Hm1. rewrite (Hm1 z); [lra|].
    rewrite Hsplit. apply in_or_app. left. exact Hz. }
  simpl. rewrite Hx. pose proof (Q_of_nat_pos n Hn) as Hq.
  apply Qlt_shift_div_r; [exact Hq|]. lra.
Qed.

Lemma x1_of_nonneg rows n i a :
  nth_error (asc_table rows n) i = Some a -> 0 <= x1_of (asc_table rows n) i a.
Proof.
  intros Ha. unfold x1_of.
  destruct (find (same_r a) (rev (firstn i (asc_table rows n)))) as [q|] eqn:Eq; [|apply Qle_refl].
  apply find_some in Eq as [Hq _]. rewrite <- in_rev in Hq.
  assert (Hq' : In q (asc_table rows n))
    by (rewrite <- (firstn_skipn i (asc_table rows n)); apply in_or_app; left; exact Hq).
  pose proof (asc_table_inv rows n) as Hi. rewrite Forall_forall in Hi.
  destruct (Hi q Hq') as [Hp _]. apply Qlt_le_weak, Hp.
Qed.

(** Every row of the curve table: [x1 >= 0] and, with samples, [slope < 0]. *)
Lemma plfs_x1_slope rows n p :
  (0 < n)%nat -> In p (plfs rows n) -> 0 <= p_x1 p /\ p_slope p < 0.
Proof.
  intros Hn Hp. apply In_nth_error in Hp as [i Hp]. rewrite plfs_unfold in Hp.
  destruct (final_table_nth _ _ _ Hp) as (a & Ha & _ & Hs & Hx1 & _).
  rewrite Hs, Hx1. split; [apply (x1_of_nonneg rows n i a Ha)|].
  pose proof (asc_table_slope_neg rows n Hn) as H. rewrite Forall_forall in H.
  apply H, nth_error_In with i, Ha.
Qed.

Lemma surplus_ge_x1 target p :
  p_slope p < 0 -> target <= p_y1 p -> p_x1 p <= surplus_mwh target p.
Proof.
  intros Hs Ht. unfold surplus_mwh.
  assert (Hnz : ~ p_slope p == 0) by (intros H; rewrite H in Hs; apply (Qlt_irrefl 0), Hs).
  assert (Hm : p_slope p * (1 / p_slope p) == 1) by (field; exact Hnz).
  assert (Hi : 1 / p_slope p < 0).
  { destruct (Qlt_le_dec (1 / p_slope p) 0) as [H|H]; [exact H|exfalso; nra]. }
  assert (0 <= (target - p_y1 p) * (1 / p_slope p)) by nra.
  lra.
Qed.

(** X13: in PRAS-informed mode (with at least one sample and a positive
    stress-period load in each zone of [dfload_all]) every [prm_increment] is
    non-negative: the surplus read off the selected segment is at least its
    [x1], which is never negative. *)
Theorem prm_increment_nonneg (rows : list short_row) (n_samples : nat) (dl : list load_row) :
  (0 < n_samples)%nat -> Forall (fun d => 0 < d_stress_load d) dl ->
  Forall (fun ri => 0 <= snd ri) (prm_increment_pras (plfs rows n_samples) dl).
Proof.
  intros Hn Hdl. apply Forall_forall. intros ri Hri.
  unfold prm_increment_pras in Hri. apply in_flat_map in Hri as (p & Hp & Hri).
  apply in_flat_map in Hri as (d & Hd & Hri).
  destruct ((p_r p =? d_r d)%nat && seg_ok (d_target d) p) eqn:E; [|destruct Hri].
  destruct Hri as [<-|[]]. simpl.
  apply andb_true_iff in E as [_ Hseg]. unfold seg_ok in Hseg.
  apply andb_true_iff in Hseg as [Hy1 _]. apply Qle_bool_iff in Hy1.
  destruct (plfs_x1_slope rows n_samples p Hn Hp) as [Hx1 Hs].
  pose proof (surplus_ge_x1 _ _ Hs Hy1) as Hsur.
  rewrite Forall_forall in Hdl. pose proof (Hdl d Hd) as Hl.
  apply Qle_shift_div_l; [exact Hl|]. lra.
Qed.

(** On the curve of [Examples.ex_rows] with four samples, a zone-1 target of
    0.5 MWh and a stress load of 10 MWh: one increment, 0.2. *)
Lemma prm_increment_nonneg_witness :
  (0 < 4)%nat /\ Forall (fun d => 0 < d_stress_load d) [mk_load 1 (1 # 2) 10] /\
  Forall (fun ri => 0 <= snd ri)
    (prm_increment_pras (plfs Examples.ex_rows 4) [mk_load 1 (1 # 2) 10]) /\
  map (fun ri => Qeq_bool (snd ri) (1 # 5))
      (prm_increment_pras (plfs Examples.ex_rows 4) [mk_load 1 (1 # 2) 10]) = [true].
Proof.
  assert (H1 : (0 < 4)%nat) by lia.
  assert (H2 : Forall (fun d => 0 < d_stress_load d) [mk_load 1 (1 # 2) 10])
    by (repeat constructor).
  split; [exact H1|]. split; [exact H2|]. split; [exact (prm_increment_nonneg _ _ _ H1 H2)|].
  vm_compute. reflexivity.
Defined.

End PrmUpdateProofs.

(** ** Proofs about the new reserve margins of [update_prm] *)

Module PrmNewProofs.
Import Table TableFacts PrmUpdate.



End PrmNewProofs.

(** ** Proofs about the segment [update_prm] reads the surplus from *)

Module SegmentProofs.
Import Table TableFacts UpdatePrm UpdatePrmProofs PrmUpdate PrmUpdateProofs.

Lemma step_y2_nth Y i p :
  nth_error (step_y2 Y) i = Some p ->
  exists y, nth_error Y i = Some y /\
    p = set_y2 y (match find (same_r y) (skipn (S i) Y) with Some q => p_y1 q | None => 0 end).
Proof.
  unfold step_y2. rewrite nth_error_map_ctx.
  destruct (nth_error Y i) as [y|]; intros H; inversion H; subst. eexists; split; reflexivity.
Qed.

Lemma step_y1_nth D j q :
  nth_error (step_y1 D) j = Some q ->
  exists d, nth_error D j = Some d /\ p_r q = p_r d /\ p_intercept q = p_intercept d /\
    p_y1 q = p_intercept d + Dy_prefix D j (p_r d).
Proof.
  unfold step_y1. rewrite nth_error_map_ctx.
  destruct (nth_error D j) as [d|]; intros H; inversion H; subst.
  exists d. rewrite app_nil_r. unfold Dy_prefix. repeat split; reflexivity.
Qed.

Lemma find_skipn_pos {A} (f : A -> bool) l : forall m q,
  find f (skipn m l) = Some q ->
  exists j, (m <= j)%nat /\ nth_error l j = Some q /\
    forall k x, (m <= k < j)%nat -> nth_error l k = Some x -> f x = false.
Proof.
  induction l as [|x t IH]; intros m q H; [destruct m; discriminate|].
  destruct m as [|m].
  - simpl in H. destruct (f x) eqn:E.
    + inversion H; subst. exists 0%nat. split; [lia|]. split; [reflexivity|]. intros; lia.
    + destruct (IH 0%nat q H) as (j & _ & Hj & Hk). exists (S j). split; [lia|].
      split; [exact Hj|]. intros [|k] y Hk' Hy; simpl in Hy; [inversion Hy; subst; exact E|].
      apply (Hk k y); [lia|exact Hy].
  - simpl in H. destruct (IH m q H) as (j & Hm & Hj & Hk). exists (S j). split; [lia|].
    split; [exact Hj|]. intros [|k] y Hk' Hy; [lia|]. apply (Hk k y); [lia|exact Hy].
Qed.

Lemma Dy_prefix_skip D r i : forall j, (i <= j)%nat -> (j <= length D)%nat ->
  (forall k x, (i <= k < j)%nat -> nth_error D k = Some x -> p_r x <> r) ->
  Dy_prefix D j r = Dy_prefix D i r.
Proof.
  intros j Hij. induction Hij as [|j Hij IH]; intros Hl Hk; [reflexivity|].
  destruct (nth_error D j) as [d|] eqn:Ed; [|apply nth_error_None in Ed; lia].
  rewrite (Dy_prefix_step _ _ _ _ Ed).
  assert (Hr : (r =? p_r d)%nat = false).
  { apply Nat.eqb_neq. intros E. apply (Hk j d); [lia|exact Ed|symmetry; exact E]. }
  rewrite Hr. apply IH; [lia|]. intros k x Hk' Hx. apply (Hk k x); [lia|exact Hx].
Qed.

Lemma nth_error_layers_r A k :
  forall x, nth_error (step_Dy (step_x2 (step_x1 A))) k = Some x ->
  exists a, nth_error A k = Some a /\ p_r x = p_r a /\ p_intercept x = p_intercept a.
Proof.
  intros x Hx. unfold step_Dy, step_x2, step_x1 in Hx.
  rewrite !nth_error_map, nth_error_map_ctx in Hx.
  destruct (nth_error A k) as [a|]; simpl in Hx; inversion Hx; subst.
  exists a. auto.
Qed.

(** X15: on a segment that has a later segment of the same zone, [y2] is the
    end point [y1 + Dy] of the segment, so a target the code selects with
    [y2 <= target <= y1] gives a surplus [x1 + (target - y1) / slope] between
    the segment's [x1] and [x2]. *)
Theorem surplus_within_segment (rows : list short_row) (n_samples : nat) (target : Q)
    (i j : nat) (p q : plf_row) :
  (0 < n_samples)%nat ->
  nth_error (plfs rows n_samples) i = Some p ->
  nth_error (plfs rows n_samples) j = Some q -> (i < j)%nat -> p_r q = p_r p ->
  seg_ok target p = true ->
  p_y2 p == p_y1 p + p_Dy p /\ p_x1 p <= surplus_mwh target p <= p_x2 p.
Proof.
  intros Hn Hp Hq Hij Hr Hseg.
  set (A := asc_table rows n_samples) in *.
  set (D := step_Dy (step_x2 (step_x1 A))).
  set (Y := step_y1 D).
  assert (HP : plfs rows n_samples = step_y2 Y) by apply plfs_unfold.
  pose proof Hp as Hp'. rewrite plfs_unfold in Hp'.
  destruct (final_table_nth _ _ _ Hp') as (a & Ha & Hra & Hsa & Hx1 & Hx2 & HDy & Hy1).
  rewrite HP in Hp, Hq.
  destruct (step_y2_nth Y i p Hp) as (y & Hy & Ep).
  destruct (step_y2_nth Y j q Hq) as (yq & Hyq & Eq).
  (* the zone of the row at [i] has a row after [i] *)
  assert (Hry : p_r y = p_r p) by (rewrite Ep; reflexivity).
  assert (Hryq : p_r yq = p_r q) by (rewrite Eq; reflexivity).
  destruct (find (same_r y) (skipn (S i) Y)) as [q'|] eqn:Ef.
  2:{ exfalso. assert (Hin : In yq (skipn (S i) Y)).
      { rewrite <- (firstn_skipn (S i) Y) in Hyq. rewrite nth_error_app2 in Hyq.
        - apply nth_error_In in Hyq. exact Hyq.
        - rewrite length_firstn. lia. }
      pose proof (find_none _ _ Ef yq Hin) as Hn'. unfold same_r in Hn'.
      rewrite Hry, Hryq, Hr, Nat.eqb_refl in Hn'. discriminate. }
  destruct (find_skipn_pos _ _ _ _ Ef) as (j' & Hj' & Hq' & Hk).
  pose proof Ef as Ef'. apply find_some in Ef' as [_ Hs']. unfold same_r in Hs'.
  apply Nat.eqb_eq in Hs'.
  destruct (step_y1_nth D j' q' Hq') as (d' & Hd' & Hrq' & _ & Hyq').
  destruct (nth_error_layers_r A j' d' Hd') as (a' & Ha' & Hra' & Hia').
  (* [y2] is the end point of the segment *)
  assert (Hy2 : p_y2 p == p_y1 p + p_Dy p).
  { assert (E2 : p_y2 p = p_y1 q') by (rewrite Ep; reflexivity).
    rewrite E2, Hyq'.
    pose proof (asc_table_inv rows n_samples) as Hi. rewrite Forall_forall in Hi.
    destruct (Hi a) as (_ & Hia & _); [apply nth_error_In with i; exact Ha|].
    destruct (Hi a') as (_ & Hia2 & _); [apply nth_error_In with j'; exact Ha'|].
    assert (Hr' : p_r d' = p_r a) by congruence.
    rewrite Hia', Hia2, Hr', Hy1, Hia, <- Hra', Hr'.
    assert (Hlen : (j' <= length D)%nat).
    { apply Nat.lt_le_incl, nth_error_Some. rewrite Hd'. discriminate. }
    destruct (nth_error D i) as [di|] eqn:Edi.
    2:{ apply nth_error_None in Edi. lia. }
    rewrite (Dy_prefix_skip D (p_r a) (S i) j' Hj' Hlen).
    - rewrite (Dy_prefix_step _ _ _ _ Edi).
      destruct (Dy_table_nth A i di Edi) as (a0 & Ha0 & Hr0 & HD0).
      change (nth_error A i = Some a) in Ha. rewrite Ha in Ha0. inversion Ha0; subst a0.
      rewrite Hr0, Nat.eqb_refl, HD0, HDy. unfold D, A. ring.
    - intros k x Hk' Hx.
      assert (Hyk : exists yk, nth_error Y k = Some yk /\ p_r yk = p_r x).
      { unfold Y, step_y1. rewrite nth_error_map_ctx, Hx. eexists; split; reflexivity. }
      destruct Hyk as (yk & Hyk & Hrk).
      pose proof (Hk k yk ltac:(lia) Hyk) as Hf. unfold same_r in Hf.
      apply Nat.eqb_neq in Hf. intros E. apply Hf. rewrite Hrk, E, Hry, Hra. reflexivity. }
  split; [exact Hy2|].
  destruct (plfs_x1_slope rows n_samples p Hn) as [_ Hs].
  { rewrite HP. apply nth_error_In with i, Hp. }
  unfold seg_ok in Hseg. apply andb_true_iff in Hseg as [H1 H2].
  apply Qle_bool_iff in H1, H2.
  split; [apply surplus_ge_x1; assumption|].
  assert (HDp : p_Dy p = p_slope p * (p_x2 p - p_x1 p)) by (rewrite HDy, Hsa, Hx1, Hx2; reflexivity).
  assert (Hnz : ~ p_slope p == 0) by (intros H; rewrite H in Hs; apply (Qlt_irrefl 0), Hs).
  assert (Hm : p_slope p * (1 / p_slope p) == 1) by (field; exact Hnz).
  assert (Hi : 1 / p_slope p < 0).
  { destruct (Qlt_le_dec (1 / p_slope p) 0) as [H|H]; [exact H|exfalso; nra]. }
  unfold surplus_mwh.
  assert (Hge : p_slope p * (p_x2 p - p_x1 p) <= target - p_y1 p) by (rewrite HDp in Hy2; lra).
  assert ((target - p_y1 p) * (1 / p_slope p) <=
          p_slope p * (p_x2 p - p_x1 p) * (1 / p_slope p)) by nra.
  assert (p_slope p * (p_x2 p - p_x1 p) * (1 / p_slope p) == p_x2 p - p_x1 p)
    by (field; exact Hnz).
  lra.
Qed.


(** On the curve of [Examples.ex_rows] with four samples, zone 2 has two
    segments; a target of 1 falls on the first, from [x1 = 0] to [x2 = 2], and
    its surplus is [3/2]. *)
Lemma surplus_within_segment_witness :
  exists p q, nth_error (plfs Examples.ex_rows 4) 3 = Some p /\
    nth_error (plfs Examples.ex_rows 4) 4 = Some q /\ p_r q = p_r p /\
    seg_ok 1 p = true /\
    (p_y2 p == p_y1 p + p_Dy p /\ p_x1 p <= surplus_mwh 1 p <= p_x2 p) /\
    surplus_mwh 1 p == 3 # 2.
Proof.
  destruct (nth_error (plfs Examples.ex_rows 4) 3) as [p|] eqn:E3;
    [|vm_compute in E3; discriminate].
  destruct (nth_error (plfs Examples.ex_rows 4) 4) as [q|] eqn:E4;
    [|vm_compute in E4; discriminate].
  pose proof E3 as E3'. pose proof E4 as E4'.
  vm_compute in E3', E4'. injection E3' as Ep. injection E4' as Eq.
  assert (Hr : p_r q = p_r p) by (rewrite <- Ep, <- Eq; reflexivity).
  assert (Hs : seg_ok 1 p = true) by (rewrite <- Ep; vm_compute; reflexivity).
  exists p, q. split; [reflexivity|]. split; [reflexivity|].
  split; [exact Hr|]. split; [exact Hs|].
  split; [exact (surplus_within_segment Examples.ex_rows 4 1 3 4 p q ltac:(lia) E3 E4 ltac:(lia) Hr Hs)|].
  rewrite <- Ep. vm_compute. reflexivity.
Defined.

End SegmentProofs.
